(** * PlanExe, [src/pitch/cleanup_pitch.py]: the pitch clean-up request

    A shallow embedding of [CleanupPitch] with its [execute], [to_dict] and
    [save_raw], and of the parts of the Python runtime the three functions
    lean on:

    - text as lists of code points, with [str.strip] and
      [str.encode('utf-8')];
    - JSON values and the insertion-ordered [dict];
    - exceptions, carried by a state-and-error monad over a world made of
      the log, the calls to the model client, the clock and the files;
    - binary64 floats for [time.perf_counter], [-] and [math.ceil];
    - [json.loads] and [json.dumps(..., indent=2)] of the standard library,
      character by character.

    Left out of the runtime: the conversion between decimal text and
    binary64 (a float read from JSON is kept as its literal, and its
    [repr] is a parameter of the encoder), the limit on the number of
    digits [int] accepts, and the recursion limit of the interpreter. *)

From Stdlib Require Import String Ascii List Bool Arith NArith ZArith Zpower Lia.
From Stdlib Require Import QArith Qround Qpower.
From Stdlib Require Import Floats.SpecFloat.
From Stdlib Require Decimal DecimalZ DecimalPos DecimalFacts.
Import ListNotations.

Set Warnings "-register-all".
Local Open Scope N_scope.

(* ================================================================== *)
(** * Part I. Definitions *)
(* ================================================================== *)

(** ** Python text

    A Python [str] is a sequence of code points.  Lone surrogates are
    legal members of a [str]; they only fail when the text is encoded. *)

Definition codepoint := N.
Definition pystr := list codepoint.

Definition ord (a : ascii) : codepoint := N_of_ascii a.

Fixpoint py (s : string) : pystr :=
  match s with
  | EmptyString => []
  | String a s' => ord a :: py s'
  end.

Fixpoint pystr_eqb (a b : pystr) : bool :=
  match a, b with
  | [], [] => true
  | x :: a', y :: b' => N.eqb x y && pystr_eqb a' b'
  | _, _ => false
  end.

Definition DQUOTE : codepoint := 34.
Definition BACKSLASH : codepoint := 92.
Definition LF : codepoint := 10.
Definition SPACE : codepoint := 32.

(** [s.startswith(p)], returning what follows the prefix. *)
Fixpoint strip_prefix (p s : pystr) : option pystr :=
  match p, s with
  | [], _ => Some s
  | a :: p', b :: s' => if a =? b then strip_prefix p' s' else None
  | _ :: _, [] => None
  end.

(** [str.isspace] on one code point. *)
Definition py_isspace (c : codepoint) : bool :=
  ((9 <=? c) && (c <=? 13)) || ((28 <=? c) && (c <=? 32))
  || (c =? 133) || (c =? 160) || (c =? 5760)
  || ((8192 <=? c) && (c <=? 8202))
  || (c =? 8232) || (c =? 8233) || (c =? 8239) || (c =? 8287) || (c =? 12288).

Fixpoint py_lstrip (s : pystr) : pystr :=
  match s with
  | c :: s' => if py_isspace c then py_lstrip s' else s
  | [] => []
  end.

Definition py_rstrip (s : pystr) : pystr := rev (py_lstrip (rev s)).

(** [s.strip()] *)
Definition py_strip (s : pystr) : pystr := py_rstrip (py_lstrip s).

(** ** [str.encode('utf-8')]

    Surrogates have no encoding; no code point of a [str] lies above
    1114111. *)

Definition mkbyte (n : N) : Byte.byte :=
  match Byte.of_N (n mod 256) with
  | Some b => b
  | None => Byte.x00
  end.

Definition is_high_surrogate (c : codepoint) : bool := (55296 <=? c) && (c <=? 56319).
Definition is_low_surrogate (c : codepoint) : bool := (56320 <=? c) && (c <=? 57343).
Definition is_surrogate (c : codepoint) : bool := (55296 <=? c) && (c <=? 57343).

Definition utf8_char (c : codepoint) : option (list Byte.byte) :=
  if c <? 128 then Some [mkbyte c]
  else if c <? 2048 then
    Some [mkbyte (N.lor 192 (N.shiftr c 6)); mkbyte (N.lor 128 (N.land c 63))]
  else if c <? 65536 then
    if is_surrogate c then None
    else Some [mkbyte (N.lor 224 (N.shiftr c 12));
               mkbyte (N.lor 128 (N.land (N.shiftr c 6) 63));
               mkbyte (N.lor 128 (N.land c 63))]
  else if c <? 1114112 then
    Some [mkbyte (N.lor 240 (N.shiftr c 18));
          mkbyte (N.lor 128 (N.land (N.shiftr c 12) 63));
          mkbyte (N.lor 128 (N.land (N.shiftr c 6) 63));
          mkbyte (N.lor 128 (N.land c 63))]
  else None.

Fixpoint utf8_bytes (s : pystr) : option (list Byte.byte) :=
  match s with
  | [] => Some []
  | c :: s' =>
      match utf8_char c, utf8_bytes s' with
      | Some b, Some bs => Some (b ++ bs)
      | _, _ => None
      end
  end.

(** ** JSON values, as [json.loads] builds them

    A float is kept symbolically: the two constants the decoder accepts and
    the decimal literal a finite float was read from. *)

Inductive pyfloat :=
  | FNaN
  | FInf (negative : bool)
  | FDec (literal : pystr).

Inductive json :=
  | JNull
  | JBool (b : bool)
  | JInt (n : Z)
  | JFloat (f : pyfloat)
  | JStr (s : pystr)
  | JList (l : list json)
  | JDict (d : list (pystr * json)).

(** ** The Python [dict] with [str] keys

    Pairs in insertion order, one pair per key.  [d[k] = v] replaces the
    value in place when [k] is present and appends the pair otherwise. *)

Definition dict := list (pystr * json).

Fixpoint dict_get (k : pystr) (d : dict) : option json :=
  match d with
  | [] => None
  | (k', v) :: d' => if pystr_eqb k' k then Some v else dict_get k d'
  end.

Fixpoint dict_set (d : dict) (k : pystr) (v : json) : dict :=
  match d with
  | [] => [(k, v)]
  | (k', v') :: d' =>
      if pystr_eqb k' k then (k', v) :: d' else (k', v') :: dict_set d' k v
  end.

Definition dict_keys (d : dict) : list pystr := map fst d.

(** [dict(x)] and [x.copy()]: a shallow copy; values are immutable here. *)
Definition dict_copy (d : dict) : dict := d.

(** [dict(pairs)]: later pairs win, the first occurrence fixes the place. *)
Definition dict_of_pairs (pairs : list (pystr * json)) : dict :=
  fold_left (fun d kv => dict_set d (fst kv) (snd kv)) pairs [].

(** ** Exceptions *)

Inductive json_error :=
  | ExpectingValue
  | ExtraData
  | UnexpectedBOM
  | UnterminatedString
  | InvalidControlCharacter
  | InvalidEscape
  | InvalidUnicodeEscape
  | ExpectingPropertyName
  | ExpectingColon
  | ExpectingComma.

Inductive exn :=
  | ValueError (msg : string) (cause : option exn)
  | JSONDecodeError (e : json_error)
  | UnicodeEncodeError
  | AttributeError
  | TypeError
  | OverflowError
  | OSError
  | FileNotFoundError
  | ClientError (tag : pystr).

Inductive pyres (A : Type) :=
  | Ok (a : A)
  | Raise (e : exn).
Arguments Ok {A} a.
Arguments Raise {A} e.

Definition encode_utf8 (s : pystr) : pyres (list Byte.byte) :=
  match utf8_bytes s with
  | Some bs => Ok bs
  | None => Raise UnicodeEncodeError
  end.

(** ** Integers in decimal: [int.__repr__] and [int(text)] *)

Fixpoint uint_chars (u : Decimal.uint) : pystr :=
  match u with
  | Decimal.Nil => []
  | Decimal.D0 u' => 48 :: uint_chars u'
  | Decimal.D1 u' => 49 :: uint_chars u'
  | Decimal.D2 u' => 50 :: uint_chars u'
  | Decimal.D3 u' => 51 :: uint_chars u'
  | Decimal.D4 u' => 52 :: uint_chars u'
  | Decimal.D5 u' => 53 :: uint_chars u'
  | Decimal.D6 u' => 54 :: uint_chars u'
  | Decimal.D7 u' => 55 :: uint_chars u'
  | Decimal.D8 u' => 56 :: uint_chars u'
  | Decimal.D9 u' => 57 :: uint_chars u'
  end.

Fixpoint chars_uint (s : pystr) : Decimal.uint :=
  match s with
  | [] => Decimal.Nil
  | c :: s' =>
      let u := chars_uint s' in
      match c - 48 with
      | 0 => Decimal.D0 u | 1 => Decimal.D1 u | 2 => Decimal.D2 u | 3 => Decimal.D3 u | 4 => Decimal.D4 u
      | 5 => Decimal.D5 u | 6 => Decimal.D6 u | 7 => Decimal.D7 u | 8 => Decimal.D8 u | _ => Decimal.D9 u
      end
  end.

Definition int_repr (z : Z) : pystr :=
  match Z.to_int z with
  | Decimal.Pos u => uint_chars u
  | Decimal.Neg u => ord "-" :: uint_chars u
  end.

Definition int_of_text (s : pystr) : Z :=
  match s with
  | c :: s' =>
      if c =? ord "-" then Z.of_int (Decimal.Neg (chars_uint s'))
      else Z.of_int (Decimal.Pos (chars_uint s))
  | [] => 0%Z
  end.

(** ** [json.loads]: the decoder of the standard library

    The scanner works on what is left of the text.  [Starved] marks an
    exhausted recursion budget; [json_loads] hands out enough of it. *)

Inductive scan (A : Type) :=
  | Scanned (a : A) (rest : pystr)
  | Failed (e : json_error)
  | Starved.
Arguments Scanned {A} a rest.
Arguments Failed {A} e.
Arguments Starved {A}.

(** [WHITESPACE = [ \t\n\r]*] *)
Definition is_ws (c : codepoint) : bool :=
  (c =? 32) || (c =? 9) || (c =? 10) || (c =? 13).

Fixpoint skip_ws (s : pystr) : pystr :=
  match s with
  | c :: s' => if is_ws c then skip_ws s' else s
  | [] => []
  end.

Definition is_digit (c : codepoint) : bool := (48 <=? c) && (c <=? 57).

Definition hex_val (c : codepoint) : option N :=
  if is_digit c then Some (c - 48)
  else if (97 <=? c) && (c <=? 102) then Some (c - 87)
  else if (65 <=? c) && (c <=? 70) then Some (c - 55)
  else None.

(** The four hexadecimal digits of a [\uXXXX] escape. *)
Definition hex4 (s : pystr) : option (N * pystr) :=
  match s with
  | a :: b :: c :: d :: r =>
      match hex_val a, hex_val b, hex_val c, hex_val d with
      | Some x, Some y, Some z, Some w => Some (((x * 16 + y) * 16 + z) * 16 + w, r)
      | _, _, _, _ => None
      end
  | _ => None
  end.

(** [BACKSLASH] table of the decoder. *)
Definition unescape (c : codepoint) : option codepoint :=
  if c =? DQUOTE then Some DQUOTE
  else if c =? BACKSLASH then Some BACKSLASH
  else if c =? ord "/" then Some (ord "/")
  else if c =? ord "b" then Some 8
  else if c =? ord "f" then Some 12
  else if c =? ord "n" then Some 10
  else if c =? ord "r" then Some 13
  else if c =? ord "t" then Some 9
  else None.

Definition join_surrogates (hi lo : N) : codepoint :=
  65536 + N.lor (N.shiftl (hi - 55296) 10) (lo - 56320).

Inductive item :=
  | ItemEnd
  | ItemChar (c : codepoint).

(** One turn of the loop of [scanstring] (strict mode): the closing quote,
    or one character of the string, plain or escaped. *)
Definition scan_item (s : pystr) : scan item :=
  match s with
  | [] => Failed UnterminatedString
  | c :: r =>
      if c =? DQUOTE then Scanned ItemEnd r
      else if c =? BACKSLASH then
        match r with
        | [] => Failed UnterminatedString
        | esc :: r1 =>
            if esc =? ord "u" then
              match hex4 r1 with
              | None => Failed InvalidUnicodeEscape
              | Some (uni, r2) =>
                  if is_high_surrogate uni then
                    match r2 with
                    | b :: u :: r3 =>
                        if (b =? BACKSLASH) && (u =? ord "u") then
                          match hex4 r3 with
                          | None => Failed InvalidUnicodeEscape
                          | Some (uni2, r4) =>
                              if is_low_surrogate uni2
                              then Scanned (ItemChar (join_surrogates uni uni2)) r4
                              else Scanned (ItemChar uni) r2
                          end
                        else Scanned (ItemChar uni) r2
                    | _ => Scanned (ItemChar uni) r2
                    end
                  else Scanned (ItemChar uni) r2
              end
            else
              match unescape esc with
              | Some ch => Scanned (ItemChar ch) r1
              | None => Failed InvalidEscape
              end
        end
      else if c <? 32 then Failed InvalidControlCharacter
      else Scanned (ItemChar c) r
  end.

(** [scanstring(s, end)], entered just past the opening quote. *)
Fixpoint scanstring (fuel : nat) (s : pystr) : scan pystr :=
  match fuel with
  | O => Starved
  | S fuel' =>
      match scan_item s with
      | Scanned ItemEnd r => Scanned [] r
      | Scanned (ItemChar c) r =>
          match scanstring fuel' r with
          | Scanned cs r' => Scanned (c :: cs) r'
          | Failed e => Failed e
          | Starved => Starved
          end
      | Failed e => Failed e
      | Starved => Starved
      end
  end.

Definition scan_str (s : pystr) : scan pystr := scanstring (S (length s)) s.

(** [NUMBER_RE]: an optional minus sign and either a lone 0 or a digit 1-9
    with any digits after it; then optionally a dot with one digit or more;
    then optionally e or E, an optional sign and one digit or more. *)

Fixpoint span_digits (s : pystr) : pystr * pystr :=
  match s with
  | c :: s' =>
      if is_digit c then let (ds, r) := span_digits s' in (c :: ds, r)
      else ([], s)
  | [] => ([], [])
  end.

Definition match_unsigned (s : pystr) : option (pystr * pystr) :=
  match s with
  | c :: r =>
      if c =? ord "0" then Some ([c], r)
      else if is_digit c then let (ds, r') := span_digits r in Some (c :: ds, r')
      else None
  | [] => None
  end.

Definition match_integer (s : pystr) : option (pystr * pystr) :=
  match s with
  | c :: r =>
      if c =? ord "-" then
        match match_unsigned r with
        | Some (ds, r') => Some (c :: ds, r')
        | None => None
        end
      else match_unsigned s
  | [] => None
  end.

Definition match_frac (s : pystr) : pystr * pystr :=
  match s with
  | c :: r =>
      if c =? ord "." then
        match span_digits r with
        | ([], _) => ([], s)
        | (ds, r') => (c :: ds, r')
        end
      else ([], s)
  | [] => ([], s)
  end.

Definition match_exp (s : pystr) : pystr * pystr :=
  match s with
  | c :: r =>
      if (c =? ord "e") || (c =? ord "E") then
        let (sg, r1) :=
          match r with
          | c2 :: r1' =>
              if (c2 =? ord "-") || (c2 =? ord "+") then ([c2], r1') else ([], r)
          | [] => ([], r)
          end in
        match span_digits r1 with
        | ([], _) => ([], s)
        | (ds, r2) => (c :: sg ++ ds, r2)
        end
      else ([], s)
  | [] => ([], s)
  end.

Definition match_number (s : pystr) : option (json * pystr) :=
  match match_integer s with
  | None => None
  | Some (integer, r) =>
      let (frac, r1) := match_frac r in
      let (exp, r2) := match_exp r1 in
      match frac, exp with
      | [], [] => Some (JInt (int_of_text integer), r2)
      | _, _ => Some (JFloat (FDec (integer ++ frac ++ exp)), r2)
      end
  end.

(** [_scan_once] for everything but strings, arrays and objects. *)
Definition scan_atom (s : pystr) : scan json :=
  match strip_prefix (py "null") s with
  | Some r => Scanned JNull r
  | None =>
  match strip_prefix (py "true") s with
  | Some r => Scanned (JBool true) r
  | None =>
  match strip_prefix (py "false") s with
  | Some r => Scanned (JBool false) r
  | None =>
  match match_number s with
  | Some (v, r) => Scanned v r
  | None =>
  match strip_prefix (py "NaN") s with
  | Some r => Scanned (JFloat FNaN) r
  | None =>
  match strip_prefix (py "Infinity") s with
  | Some r => Scanned (JFloat (FInf false)) r
  | None =>
  match strip_prefix (py "-Infinity") s with
  | Some r => Scanned (JFloat (FInf true)) r
  | None => Failed ExpectingValue
  end end end end end end end.

(** [_scan_once], with the loops of [JSONArray] and [JSONObject].
    [array_items] starts at a value; [object_items] starts just past the
    opening quote of a key. *)
Fixpoint scan_once (fuel : nat) (s : pystr) {struct fuel} : scan json :=
  match fuel with
  | O => Starved
  | S fuel' =>
      match s with
      | [] => Failed ExpectingValue
      | c :: r =>
          if c =? DQUOTE then
            match scan_str r with
            | Scanned str r' => Scanned (JStr str) r'
            | Failed e => Failed e
            | Starved => Starved
            end
          else if c =? ord "{" then
            match skip_ws r with
            | q :: r1 =>
                if q =? DQUOTE then
                  match object_items fuel' r1 with
                  | Scanned pairs r2 => Scanned (JDict (dict_of_pairs pairs)) r2
                  | Failed e => Failed e
                  | Starved => Starved
                  end
                else if q =? ord "}" then Scanned (JDict []) r1
                else Failed ExpectingPropertyName
            | [] => Failed ExpectingPropertyName
            end
          else if c =? ord "[" then
            match skip_ws r with
            | q :: r1 =>
                if q =? ord "]" then Scanned (JList []) r1
                else
                  match array_items fuel' (q :: r1) with
                  | Scanned values r2 => Scanned (JList values) r2
                  | Failed e => Failed e
                  | Starved => Starved
                  end
            | [] => Failed ExpectingValue
            end
          else scan_atom s
      end
  end

with array_items (fuel : nat) (s : pystr) {struct fuel} : scan (list json) :=
  match fuel with
  | O => Starved
  | S fuel' =>
      match scan_once fuel' s with
      | Scanned value r =>
          match skip_ws r with
          | c :: r1 =>
              if c =? ord "]" then Scanned [value] r1
              else if c =? ord "," then
                match array_items fuel' (skip_ws r1) with
                | Scanned values r2 => Scanned (value :: values) r2
                | Failed e => Failed e
                | Starved => Starved
                end
              else Failed ExpectingComma
          | [] => Failed ExpectingComma
          end
      | Failed e => Failed e
      | Starved => Starved
      end
  end

with object_items (fuel : nat) (s : pystr) {struct fuel}
  : scan (list (pystr * json)) :=
  match fuel with
  | O => Starved
  | S fuel' =>
      match scan_str s with
      | Scanned key r =>
          match skip_ws r with
          | c :: r1 =>
              if c =? ord ":" then
                match scan_once fuel' (skip_ws r1) with
                | Scanned value r2 =>
                    match skip_ws r2 with
                    | c2 :: r3 =>
                        if c2 =? ord "}" then Scanned [(key, value)] r3
                        else if c2 =? ord "," then
                          match skip_ws r3 with
                          | q :: r4 =>
                              if q =? DQUOTE then
                                match object_items fuel' r4 with
                                | Scanned pairs r5 => Scanned ((key, value) :: pairs) r5
                                | Failed e => Failed e
                                | Starved => Starved
                                end
                              else Failed ExpectingPropertyName
                          | [] => Failed ExpectingPropertyName
                          end
                        else Failed ExpectingComma
                    | [] => Failed ExpectingComma
                    end
                | Failed e => Failed e
                | Starved => Starved
                end
              else Failed ExpectingColon
          | [] => Failed ExpectingColon
          end
      | Failed e => Failed e
      | Starved => Starved
      end
  end.

Definition scan_budget (s : pystr) : nat := 2 * length s + 1.

(** [s.startswith('\ufeff')] *)
Definition starts_with_bom (s : pystr) : bool :=
  match s with
  | c :: _ => c =? 65279
  | [] => false
  end.

(** [json.loads(s)] for a [str] argument. *)
Definition json_loads (s : pystr) : pyres json :=
  if starts_with_bom s then Raise (JSONDecodeError UnexpectedBOM)
  else
    let s1 := skip_ws s in
    match scan_once (scan_budget s1) s1 with
    | Scanned v r =>
        match skip_ws r with
        | [] => Ok v
        | _ :: _ => Raise (JSONDecodeError ExtraData)
        end
    | Failed e => Raise (JSONDecodeError e)
    | Starved => Raise (JSONDecodeError ExpectingValue)
    end.

(** ** [json.dumps(obj, indent=2)]: the encoder of the standard library *)

Definition hex_digit (d : N) : codepoint := if d <? 10 then 48 + d else 87 + d.

(** ['{0:04x}'.format(n)] *)
Definition hex4_chars (n : N) : pystr :=
  [hex_digit (n / 4096 mod 16); hex_digit (n / 256 mod 16);
   hex_digit (n / 16 mod 16); hex_digit (n mod 16)].

Definition u_escape (n : N) : pystr := BACKSLASH :: ord "u" :: hex4_chars n.

(** The replacement of one character in [py_encode_basestring_ascii]. *)
Definition escape_char (c : codepoint) : pystr :=
  if c =? DQUOTE then [BACKSLASH; DQUOTE]
  else if c =? BACKSLASH then [BACKSLASH; BACKSLASH]
  else if c =? 10 then [BACKSLASH; ord "n"]
  else if c =? 13 then [BACKSLASH; ord "r"]
  else if c =? 9 then [BACKSLASH; ord "t"]
  else if c =? 8 then [BACKSLASH; ord "b"]
  else if c =? 12 then [BACKSLASH; ord "f"]
  else if (32 <=? c) && (c <=? 126) then [c]
  else if c <? 65536 then u_escape c
  else
    let n := c - 65536 in
    u_escape (N.lor 55296 (N.land (N.shiftr n 10) 1023))
    ++ u_escape (N.lor 56320 (N.land n 1023)).

Definition escape_body (s : pystr) : pystr := flat_map escape_char s.

Definition encode_basestring_ascii (s : pystr) : pystr :=
  DQUOTE :: escape_body s ++ [DQUOTE].

(** ['\n' + ' ' * 2 * level] *)
Definition newline_indent (level : nat) : pystr :=
  LF :: repeat SPACE (2 * level).

Fixpoint join (sep : pystr) (chunks : list pystr) : pystr :=
  match chunks with
  | [] => []
  | [x] => x
  | x :: xs => x ++ sep ++ join sep xs
  end.

Section Encoder.

(** [float.__repr__] of the float a decimal literal denotes; the
    conversion between decimal text and binary64 is left open. *)
Variable float_repr : pystr -> pystr.

Definition floatstr (f : pyfloat) : pystr :=
  match f with
  | FNaN => py "NaN"
  | FInf false => py "Infinity"
  | FInf true => py "-Infinity"
  | FDec literal => float_repr literal
  end.

Fixpoint encode (level : nat) (v : json) {struct v} : pystr :=
  match v with
  | JNull => py "null"
  | JBool true => py "true"
  | JBool false => py "false"
  | JInt n => int_repr n
  | JFloat f => floatstr f
  | JStr s => encode_basestring_ascii s
  | JList [] => py "[]"
  | JList l =>
      ord "[" :: newline_indent (S level)
      ++ join (ord "," :: newline_indent (S level)) (map (encode (S level)) l)
      ++ newline_indent level ++ [ord "]"]
  | JDict [] => py "{}"
  | JDict d =>
      ord "{" :: newline_indent (S level)
      ++ join (ord "," :: newline_indent (S level))
           (map (fun kv : pystr * json =>
                   let (k, x) := kv in
                   encode_basestring_ascii k ++ py ": " ++ encode (S level) x) d)
      ++ newline_indent level ++ [ord "}"]
  end.

Definition json_dumps (v : json) : pystr := encode 0 v.

End Encoder.

(** ** Floats: [time.perf_counter] readings, [-] and [math.ceil] *)

Definition float := spec_float.

(** binary64 *)
Definition prec : Z := 53.
Definition emax : Z := 1024.

Definition float_sub (x y : float) : float := SFsub prec emax x y.
Definition float_le (x y : float) : bool := SFleb x y.
Definition is_binary64 (x : float) : bool := valid_binary prec emax x.

(** The rational a finite float stands for. *)
Definition float_value (x : float) : Q :=
  match x with
  | S754_finite s m e => inject_Z (cond_Zopp s (Zpos m)) * Qpower (2 # 1) e
  | _ => 0%Q
  end.

(** [int(ceil(x))] *)
Definition py_ceil (x : float) : pyres Z :=
  match x with
  | S754_nan => Raise (ValueError "cannot convert float NaN to integer" None)
  | S754_infinity _ => Raise OverflowError
  | _ => Ok (Qceiling (float_value x))
  end.

(** ** The world around a call: log records, the model client, the clock
    and the files *)

Inductive log_level := DEBUG | INFO | ERROR.

Inductive MessageRole := SYSTEM | USER.

Record ChatMessage := {
  role : MessageRole;
  content : pystr
}.

Inductive event :=
  | EvLog (level : log_level) (message : pystr)
  | EvChat (messages : list ChatMessage).

(** What [sllm.chat(...)] comes back with: a reply whose
    [message.content] is a [str] or [None], or an exception. *)
Inductive chat_outcome :=
  | ChatResponse (message_content : option pystr)
  | ChatRaises (e : exn).

(** An instance of (a subclass of) [LLM]: its [metadata], its
    [class_name()] and the [chat] of [as_structured_llm(OutputDocument)]. *)
Record LLM := {
  llm_metadata : dict;
  llm_class_name : pystr;
  llm_structured_chat : list ChatMessage -> chat_outcome
}.

(** An argument as Python passes it: any object. *)
Inductive pyobj :=
  | PyLLM (llm : LLM)
  | PyValue (v : json).

Definition isinstance_LLM (o : pyobj) : option LLM :=
  match o with
  | PyLLM llm => Some llm
  | PyValue _ => None
  end.

Definition isinstance_str (o : pyobj) : option pystr :=
  match o with
  | PyValue (JStr s) => Some s
  | _ => None
  end.

Record world := {
  w_events : list event;
  w_clock : nat -> float;
  w_clock_reads : nat;
  w_files : pystr -> option pystr;
  w_openable : pystr -> bool
}.

Definition M (A : Type) : Type := world -> pyres A * world.

Definition ret {A} (a : A) : M A := fun w => (Ok a, w).
Definition raise {A} (e : exn) : M A := fun w => (Raise e, w).
Definition bind {A B} (m : M A) (k : A -> M B) : M B :=
  fun w =>
    match m w with
    | (Ok a, w') => k a w'
    | (Raise e, w') => (Raise e, w')
    end.
Definition lift {A} (r : pyres A) : M A := fun w => (r, w).

Notation "x <- m ;; k" := (bind m (fun x => k))
  (at level 61, m at next level, right associativity).
Notation "m ;; k" := (bind m (fun _ => k))
  (at level 61, right associativity).

Definition emit (e : event) : M unit :=
  fun w => (Ok tt, {| w_events := w_events w ++ [e];
                      w_clock := w_clock w;
                      w_clock_reads := w_clock_reads w;
                      w_files := w_files w;
                      w_openable := w_openable w |}).

Definition log (level : log_level) (message : pystr) : M unit :=
  emit (EvLog level message).

(** [time.perf_counter()] *)
Definition perf_counter : M float :=
  fun w => (Ok (w_clock w (w_clock_reads w)),
            {| w_events := w_events w;
               w_clock := w_clock w;
               w_clock_reads := S (w_clock_reads w);
               w_files := w_files w;
               w_openable := w_openable w |}).

(** [sllm.chat(chat_message_list)] then [chat_response.message.content] *)
Definition chat (llm : LLM) (messages : list ChatMessage) : M (option pystr) :=
  emit (EvChat messages) ;;
  match llm_structured_chat llm messages with
  | ChatResponse c => ret c
  | ChatRaises e => raise e
  end.

Definition set_file (path : pystr) (text : pystr) : M unit :=
  fun w => (Ok tt, {| w_events := w_events w;
                      w_clock := w_clock w;
                      w_clock_reads := w_clock_reads w;
                      w_files := fun p => if pystr_eqb p path then Some text
                                          else w_files w p;
                      w_openable := w_openable w |}).

(** [open(file_path, 'w')]: the file is created or emptied. *)
Definition open_w (path : pystr) : M unit :=
  fun w => if w_openable w path then set_file path [] w else (Raise OSError, w).

(** [f.write(text)] on the file opened by [open_w]. *)
Definition write (path : pystr) (text : pystr) : M unit := set_file path text.

(** [open(file_path).read()] *)
Definition read_text (path : pystr) : M pystr :=
  fun w => match w_files w path with
           | Some text => (Ok text, w)
           | None => (Raise FileNotFoundError, w)
           end.

(** ** [cleanup_pitch.py] *)




Definition SYSTEM_PROMPT : pystr := py "
You are a content formatter. Transform a JSON object containing project pitch sections into a compelling Markdown document.

# Instructions

1.  **Input:** JSON with section titles as keys and content as values.

2.  **Draft Markdown:** Iterate through all sections in the JSON object and perform the following steps:
    - Convert suitable text into markdown with bulleted lists.
    - Rewrite sentences to be more impactful and persuasive.
    - You are encouraged to move sentences around to improve the flow of the text.

3.  **Draft Markdown Restrictions:**
    - Use ONLY the provided text. Do not add external information (website addresses, contact details, dates, etc.)
    - Do not remove any sections or section text unless it is irrelevant.
    - The reformatted pitch must cover the same topics as the original JSON object.
    - Use newlines before and after headings.

4. **Tone:**
    - For short, everyday tasks: Use an informal, energetic tone, fewer paragraphs, shorter bullet points.
	- For big, strategic projects: Adopt a formal, detailed style, multiple sections, more thorough risk/benefit analysis.

5.  **Final Markdown:**
    - Take the draft markdown and refine it further.
    - Bold important keywords or phrases, like **very important words**.
    - Repair invalid markdown syntax.
    - Ensure the final markdown is well-structured.

6.  **Final Markdown Restrictions:**
    - Markdown headings: Use `# Top Level` for the document title. Use `## Second Level` for section titles. Do NOT use more than two levels of headings.
    - Don't bold headings or subheadings, since they are already formatted.

# Example of markdown formatting

```markdown
# Document title

## Section Title

Paragraph with text. Use bullet points for lists.
- I'm a bullet point
- Another bullet point
- Yet another bullet point

## Another Section Title

etc.

```
".

Record CleanupPitch := {
  system_prompt : option pystr;
  user_prompt : pystr;
  response : json;
  metadata : dict
}.

(** [message.content] as the receiver of [.encode]: [None] has no such
    attribute. *)
Definition str_content (message_content : option pystr) : pyres pystr :=
  match message_content with
  | Some text => Ok text
  | None => Raise AttributeError
  end.

Definition execute (llm : pyobj) (user_prompt : pyobj) : M CleanupPitch :=
  match isinstance_LLM llm with
  | None => raise (ValueError "Invalid LLM instance." None)
  | Some llm =>
  match isinstance_str user_prompt with
  | None => raise (ValueError "Invalid query." None)
  | Some user_prompt =>
      let system_prompt := py_strip SYSTEM_PROMPT in
      let chat_message_list :=
        [ {| role := SYSTEM; content := system_prompt |};
          {| role := USER; content := user_prompt |} ] in
      log DEBUG (py "User Prompt:" ++ LF :: user_prompt) ;;
      (* sllm = llm.as_structured_llm(OutputDocument): [llm_structured_chat] *)
      log DEBUG (py "Starting LLM chat interaction.") ;;
      start_time <- perf_counter ;;
      message_content <- chat llm chat_message_list ;;
      end_time <- perf_counter ;;
      duration <- lift (py_ceil (float_sub end_time start_time)) ;;
      text <- lift (str_content message_content) ;;
      encoded <- lift (encode_utf8 text) ;;
      let response_byte_count := Z.of_nat (length encoded) in
      log INFO (py "LLM chat interaction completed in " ++ int_repr duration
                ++ py " seconds. Response byte count: "
                ++ int_repr response_byte_count) ;;
      let metadata := dict_copy (llm_metadata llm) in
      let metadata := dict_set metadata (py "llm_classname") (JStr (llm_class_name llm)) in
      let metadata := dict_set metadata (py "duration") (JInt duration) in
      let metadata := dict_set metadata (py "response_byte_count") (JInt response_byte_count) in
      match json_loads text with
      | Raise (JSONDecodeError e) =>
          log ERROR (py "Failed to parse LLM response as JSON.") ;;
          raise (ValueError "Invalid JSON response from LLM."
                   (Some (JSONDecodeError e)))
      | Raise e => raise e
      | Ok json_response =>
          let result := {| system_prompt := Some system_prompt;
                           user_prompt := user_prompt;
                           response := json_response;
                           metadata := metadata |} in
          log DEBUG (py "CleanupPitch instance created successfully.") ;;
          ret result
      end
  end end.

Definition json_of_optstr (o : option pystr) : json :=
  match o with
  | Some s => JStr s
  | None => JNull
  end.

(** [x.copy()] exists on [dict] and [list] only. *)
Definition py_copy (v : json) : pyres json :=
  match v with
  | JDict d => Ok (JDict (dict_copy d))
  | JList l => Ok (JList l)
  | _ => Raise AttributeError
  end.

(** [d[k] = v] with a [str] key works on a [dict] only. *)
Definition py_setitem (d : json) (k : pystr) (v : json) : pyres json :=
  match d with
  | JDict m => Ok (JDict (dict_set m k v))
  | _ => Raise TypeError
  end.

Definition setitem_if (flag : bool) (d : pyres json) (k : pystr) (v : json)
  : pyres json :=
  match d with
  | Raise e => Raise e
  | Ok d' => if flag then py_setitem d' k v else Ok d'
  end.

Definition to_dict (self : CleanupPitch)
    (include_metadata include_system_prompt include_user_prompt : bool)
  : pyres json :=
  let d := py_copy (response self) in
  let d := setitem_if include_metadata d (py "metadata") (JDict (metadata self)) in
  let d := setitem_if include_system_prompt d (py "system_prompt")
             (json_of_optstr (system_prompt self)) in
  let d := setitem_if include_user_prompt d (py "user_prompt")
             (JStr (user_prompt self)) in
  d.

Section SaveRaw.

Variable float_repr : pystr -> pystr.

Definition save_raw (self : CleanupPitch) (file_path : pystr) : M unit :=
  open_w file_path ;;
  d <- lift (to_dict self true true true) ;;
  write file_path (json_dumps float_repr d).

End SaveRaw.

(** ** Vocabulary of the statements *)

(** The conversation [execute] builds for a prompt. *)
Definition conversation (prompt : pystr) : list ChatMessage :=
  [ {| role := SYSTEM; content := py_strip SYSTEM_PROMPT |};
    {| role := USER; content := prompt |} ].

(** The two clock readings of a call started in [w], and their difference
    as [execute] computes it. *)
Definition start_reading (w : world) : float := w_clock w (w_clock_reads w).
Definition end_reading (w : world) : float := w_clock w (S (w_clock_reads w)).
Definition elapsed (w : world) : float :=
  float_sub (end_reading w) (start_reading w).

(** The conversations handed to the model client, oldest first. *)
Fixpoint chats (evs : list event) : list (list ChatMessage) :=
  match evs with
  | [] => []
  | EvChat msgs :: evs' => msgs :: chats evs'
  | EvLog _ _ :: evs' => chats evs'
  end.

(** The keys of the result's metadata and of the flat mapping. *)
Definition KEY_METADATA : pystr := py "metadata".
Definition KEY_SYSTEM_PROMPT : pystr := py "system_prompt".
Definition KEY_USER_PROMPT : pystr := py "user_prompt".
Definition KEY_LLM_CLASSNAME : pystr := py "llm_classname".
Definition KEY_DURATION : pystr := py "duration".
Definition KEY_RESPONSE_BYTE_COUNT : pystr := py "response_byte_count".

(** The metadata [execute] attaches to a result. *)
Definition augmented (llm : LLM) (duration : Z) (byte_count : Z) : dict :=
  dict_set
    (dict_set
       (dict_set (dict_copy (llm_metadata llm))
          KEY_LLM_CLASSNAME (JStr (llm_class_name llm)))
       KEY_DURATION (JInt duration))
    KEY_RESPONSE_BYTE_COUNT (JInt byte_count).


(** ** Values that survive a trip through the encoder and the decoder

    A string is stable when no high surrogate is directly followed by a
    low surrogate (the decoder would fuse the two escapes into one code
    point); every code point of a Python [str] is below 1114112.  A value
    is stable when its strings are, its mappings have one pair per key, and
    it holds no float. *)

Fixpoint stable_text (s : pystr) : bool :=
  match s with
  | [] => true
  | c :: r =>
      (c <? 1114112)
      && negb (is_high_surrogate c
               && match r with
                  | c' :: _ => is_low_surrogate c'
                  | [] => false
                  end)
      && stable_text r
  end.

Fixpoint distinct (ks : list pystr) : bool :=
  match ks with
  | [] => true
  | k :: r => negb (existsb (pystr_eqb k) r) && distinct r
  end.


(** The two halves of stability: the shape (strings and keys) and the
    absence of floats. *)
Fixpoint shapely (v : json) : bool :=
  match v with
  | JNull | JBool _ | JInt _ | JFloat _ => true
  | JStr s => stable_text s
  | JList l => forallb shapely l
  | JDict d =>
      forallb (fun kv : pystr * json =>
                 let (k, x) := kv in stable_text k && shapely x) d
      && distinct (map fst d)
  end.


Definition shapely_pair (kv : pystr * json) : bool :=
  let (k, x) := kv in stable_text k && shapely x.

(** A text that encodes to UTF-8: code points below 1114112, none of them
    a surrogate. *)
Definition clean_char (c : codepoint) : bool :=
  (c <? 1114112) && negb (is_surrogate c).

Definition clean (s : pystr) : Prop := Forall (fun c => clean_char c = true) s.

(** [r] is what is left of [s] after some prefix. *)
Definition suffix (r s : pystr) : Prop := exists pre, s = pre ++ r.



(** After a [\uXXXX] escape of a high surrogate: the text goes on with an
    escape that the decoder would read as the other half (or reject). *)
Definition low_escape_ahead (rest : pystr) : bool :=
  match rest with
  | b :: u :: r =>
      if (b =? BACKSLASH) && (u =? ord "u") then
        match hex4 r with
        | None => true
        | Some (uni2, _) => is_low_surrogate uni2
        end
      else false
  | _ => false
  end.

(** ** Vocabulary of the round trip through the encoder and the decoder *)


(** Every character is below 128. *)
Definition is_ascii_text (s : pystr) : Prop := Forall (fun c => c < 128) s.

(** [_item_separator + newline_indent] inside a container at [level]. *)
Definition item_sep (level : nat) : pystr :=
  ord "," :: newline_indent (S level).


Section EncodedText.

Variable float_repr : pystr -> pystr.

(** One [key: value] chunk of a mapping at [level]. *)
Definition pair_text (level : nat) (kv : pystr * json) : pystr :=
  let (k, x) := kv in
  encode_basestring_ascii k ++ py ": " ++ encode float_repr (S level) x.


End EncodedText.

(** Zero, a positive number, [+inf] or [nan]. *)
Definition not_negative (x : float) : Prop :=
  match x with
  | S754_zero _ => True
  | S754_infinity s => s = false
  | S754_nan => True
  | S754_finite s _ _ => s = false
  end.


(** ** Concrete clients, clocks and worlds *)

(** A JSON text written with an apostrophe for each double quote. *)
Definition json_text (s : string) : pystr :=
  map (fun c => if c =? ord "'" then DQUOTE else c) (py s).

(** A client that answers every conversation in the same way. *)
Definition stub_llm (answer : chat_outcome) : LLM :=
  {| llm_metadata := [(py "model_name", JStr (py "stub-model"));
                      (py "duration", JStr (py "stale"))];
     llm_class_name := py "StubLLM";
     llm_structured_chat := fun _ => answer |}.

(** The binary64 numbers 1.5 and 3.8: their difference is the double 2.3. *)
Definition float_1_5 : float := S754_finite false 6755399441055744 (-52).
Definition float_3_8 : float := S754_finite false 8556839292003942 (-51).

(** A world with no log record, no file, every path writable and a clock
    that reads [t0] first and [t1] ever after. *)
Definition stub_world (t0 t1 : float) : world :=
  {| w_events := [];
     w_clock := fun n => match n with O => t0 | S _ => t1 end;
     w_clock_reads := 0;
     w_files := fun _ => None;
     w_openable := fun _ => true |}.

Definition example_reply : pystr :=
  json_text "{'draft_markdown': '# A\n', 'final_markdown': '# A\n'}".

Definition example_response : json :=
  JDict [(py "draft_markdown", JStr (py "# A" ++ [LF]));
         (py "final_markdown", JStr (py "# A" ++ [LF]))].

Definition example_llm : LLM := stub_llm (ChatResponse (Some example_reply)).
Definition example_prompt : pystr := json_text "{'Summary': 'A lunar base.'}".
Definition example_world : world := stub_world float_1_5 float_3_8.
Definition example_path : pystr := py "cleanup_pitch_raw.json".

Definition example_result : CleanupPitch :=
  {| system_prompt := Some (py_strip SYSTEM_PROMPT);
     user_prompt := example_prompt;
     response := example_response;
     metadata := augmented example_llm 3 (Z.of_nat (length example_reply)) |}.


(** [float.__repr__] is not needed where no float occurs. *)
Definition no_float_repr (literal : pystr) : pystr := literal.

(** A result whose response already holds a [metadata] key. *)
Definition clashing_result : CleanupPitch :=
  {| system_prompt := Some (py_strip SYSTEM_PROMPT);
     user_prompt := example_prompt;
     response := JDict [(py "metadata", JStr (py "from the model"));
                        (py "draft_markdown", JStr (py "# A"))];
     metadata := augmented example_llm 3 57 |}.


(** ** Vocabulary of the further properties *)

(** The log records of a call that reaches the model client, up to the
    call itself. *)
Definition opening_events (prompt : pystr) : list event :=
  [ EvLog DEBUG (py "User Prompt:" ++ LF :: prompt);
    EvLog DEBUG (py "Starting LLM chat interaction.");
    EvChat (conversation prompt) ].

(** The [INFO] record written once the reply is measured. *)
Definition completed_event (duration byte_count : Z) : event :=
  EvLog INFO (py "LLM chat interaction completed in " ++ int_repr duration
              ++ py " seconds. Response byte count: "
              ++ int_repr byte_count).





(** A result whose response is a JSON array, as [execute] returns it for a
    reply such as [[1]]. *)
Definition array_result : CleanupPitch :=
  {| system_prompt := Some (py_strip SYSTEM_PROMPT);
     user_prompt := example_prompt;
     response := JList [JInt 1];
     metadata := augmented example_llm 3 3 |}.



(** A stand-in for [float.__repr__] whose texts are plain ASCII, as those
    of [float.__repr__] are. *)
Definition ascii_float_repr (literal : pystr) : pystr :=
  filter (fun c => c <? 128) literal.

(** A result with text outside ASCII and a float in it. *)
Definition accented_result : CleanupPitch :=
  {| system_prompt := None;
     user_prompt := [233; 128512; 55296];
     response := JDict [(py "draft_markdown", JStr [8364]);
                        (py "score", JFloat (FDec (py "0.5")))];
     metadata := [] |}.

(** [if flag: d[k] = v] on a mapping. *)
Definition dict_set_if (flag : bool) (d : dict) (k : pystr) (v : json) : dict :=
  if flag then dict_set d k v else d.

(** A client whose metadata holds none of the keys [execute] adds. *)
Definition plain_llm : LLM :=
  {| llm_metadata := [(py "model_name", JStr (py "plain-model"))];
     llm_class_name := py "PlainLLM";
     llm_structured_chat := fun _ => ChatResponse (Some example_reply) |}.

(* ================================================================== *)
(** * Part II. Properties *)
(* ================================================================== *)

Global Opaque SYSTEM_PROMPT.

(** ** Keys and lookups *)

Lemma pystr_eqb_eq (a b : pystr) : pystr_eqb a b = true <-> a = b.
Proof.
  revert b; induction a as [|x a IH]; intros [|y b]; simpl; split;
    try congruence; try reflexivity.
  - intros H. apply andb_true_iff in H as [Hx Hab].
    apply N.eqb_eq in Hx. apply IH in Hab. congruence.
  - intros H. injection H as -> ->.
    rewrite N.eqb_refl. simpl. now apply IH.
Qed.

Lemma pystr_eqb_refl (a : pystr) : pystr_eqb a a = true.
Proof. now apply pystr_eqb_eq. Qed.

Lemma pystr_eqb_neq (a b : pystr) : pystr_eqb a b = false <-> a <> b.
Proof.
  split.
  - intros H E. apply pystr_eqb_eq in E. congruence.
  - intros H. destruct (pystr_eqb a b) eqn:E; [|reflexivity].
    apply pystr_eqb_eq in E. contradiction.
Qed.

Lemma dict_get_set_same (d : dict) k v : dict_get k (dict_set d k v) = Some v.
Proof.
  induction d as [|[k' v'] d IH]; simpl.
  - now rewrite pystr_eqb_refl.
  - destruct (pystr_eqb k' k) eqn:E; simpl; rewrite E; auto.
Qed.

Lemma dict_get_set_other (d : dict) k k' v :
  k <> k' -> dict_get k' (dict_set d k v) = dict_get k' d.
Proof.
  intros Hne. induction d as [|[k0 v0] d IH]; simpl.
  - apply pystr_eqb_neq in Hne. now rewrite Hne.
  - destruct (pystr_eqb k0 k) eqn:E; simpl.
    + apply pystr_eqb_eq in E. subst k0.
      apply pystr_eqb_neq in Hne. now rewrite Hne.
    + destruct (pystr_eqb k0 k'); auto.
Qed.

Lemma dict_get_in_keys (d : dict) k :
  In k (dict_keys d) <-> dict_get k d <> None.
Proof.
  induction d as [|[k0 v0] d IH]; simpl.
  - split; [tauto | congruence].
  - destruct (pystr_eqb k0 k) eqn:E.
    + apply pystr_eqb_eq in E. split; [congruence | auto].
    + apply pystr_eqb_neq in E. rewrite <- IH. tauto.
Qed.

Lemma dict_keys_set (d : dict) k v k' :
  In k' (dict_keys (dict_set d k v)) <-> k' = k \/ In k' (dict_keys d).
Proof.
  rewrite !dict_get_in_keys.
  destruct (pystr_eqb k k') eqn:E.
  - apply pystr_eqb_eq in E. subst k'. rewrite dict_get_set_same.
    split; [auto | congruence].
  - apply pystr_eqb_neq in E. rewrite dict_get_set_other by assumption.
    split; [auto | intros [->|]; [contradiction | assumption]].
Qed.

Lemma dict_set_absent (d : dict) k v :
  ~ In k (dict_keys d) -> dict_set d k v = d ++ [(k, v)].
Proof.
  induction d as [|[k0 v0] d IH]; simpl; intros Hk; [reflexivity|].
  destruct (pystr_eqb k0 k) eqn:E.
  - apply pystr_eqb_eq in E. tauto.
  - f_equal. apply IH. tauto.
Qed.

Lemma dict_set_keys_NoDup (d : dict) k v :
  NoDup (dict_keys d) -> NoDup (dict_keys (dict_set d k v)).
Proof.
  induction d as [|[k0 v0] d IH]; simpl; intros Hnd.
  - constructor; [tauto | constructor].
  - inversion Hnd as [|? ? Hnotin Hnd']; subst.
    destruct (pystr_eqb k0 k) eqn:E; simpl.
    + constructor; assumption.
    + constructor; [|now apply IH].
      intros Hin. apply dict_keys_set in Hin as [->|Hin]; [|contradiction].
      rewrite pystr_eqb_refl in E. discriminate.
Qed.

(** ** [to_dict] *)

Lemma to_dict_all_flags_eq (self : CleanupPitch) (d : dict) :
  response self = JDict d ->
  to_dict self true true true =
    Ok (JDict (dict_set
                 (dict_set
                    (dict_set d KEY_METADATA (JDict (metadata self)))
                    KEY_SYSTEM_PROMPT (json_of_optstr (system_prompt self)))
                 KEY_USER_PROMPT (JStr (user_prompt self)))).
Proof. intros H. unfold to_dict. rewrite H. reflexivity. Qed.

(** C6.  With the three flags set, [to_dict] on a result whose response is
    a mapping returns a mapping that holds [metadata], [system_prompt] and
    [user_prompt] with the values of the result's own fields, whatever the
    response held under those keys before (the later write wins); every
    other key of the response keeps its value, no key of the response is
    lost, and no key occurs twice. *)
Theorem to_dict_all_flags (self : CleanupPitch) (d : dict) :
  response self = JDict d ->
  exists d',
    to_dict self true true true = Ok (JDict d')
    /\ dict_get KEY_METADATA d' = Some (JDict (metadata self))
    /\ dict_get KEY_SYSTEM_PROMPT d' = Some (json_of_optstr (system_prompt self))
    /\ dict_get KEY_USER_PROMPT d' = Some (JStr (user_prompt self))
    /\ (forall k, k <> KEY_METADATA -> k <> KEY_SYSTEM_PROMPT ->
                  k <> KEY_USER_PROMPT -> dict_get k d' = dict_get k d)
    /\ (forall k, In k (dict_keys d) -> In k (dict_keys d'))
    /\ (NoDup (dict_keys d) -> NoDup (dict_keys d')).
Proof.
  intros Hresp. eexists. split; [apply (to_dict_all_flags_eq self d Hresp)|].
  repeat split.
  - rewrite 2 dict_get_set_other by (vm_compute; discriminate).
    apply dict_get_set_same.
  - rewrite dict_get_set_other by (vm_compute; discriminate).
    apply dict_get_set_same.
  - apply dict_get_set_same.
  - intros k H1 H2 H3.
    rewrite !dict_get_set_other by congruence. reflexivity.
  - intros k Hin. rewrite !dict_keys_set. auto.
  - intros Hnd. now repeat apply dict_set_keys_NoDup.
Qed.

(** C7.  With the three flags cleared, [to_dict] on a result whose
    response is a mapping returns a mapping with exactly the keys of the
    response, each with the value the response gives it: neither
    [metadata] nor a prompt key is added. *)
Theorem to_dict_no_flags (self : CleanupPitch) (d : dict) :
  response self = JDict d ->
  exists d',
    to_dict self false false false = Ok (JDict d')
    /\ dict_keys d' = dict_keys d
    /\ (forall k, dict_get k d' = dict_get k d).
Proof.
  intros H. exists d. unfold to_dict. rewrite H. repeat split.
Qed.

(** ** Running [execute] *)

Lemma chats_app (a b : list event) : chats (a ++ b) = chats a ++ chats b.
Proof.
  induction a as [|[lvl msg|msgs] a IH]; simpl; [reflexivity|assumption|].
  now rewrite IH.
Qed.

Ltac run_execute :=
  cbv beta iota zeta delta
    [execute bind log emit perf_counter chat lift ret raise str_content
     isinstance_LLM isinstance_str];
  cbn [w_events w_clock w_clock_reads w_files w_openable].

(** A call that returns went through every step. *)
Lemma execute_ok_inv (llm : LLM) (prompt : pystr) (w w' : world)
    (res : CleanupPitch) :
  execute (PyLLM llm) (PyValue (JStr prompt)) w = (Ok res, w') ->
  exists text bytes d v,
    llm_structured_chat llm (conversation prompt) = ChatResponse (Some text)
    /\ py_ceil (elapsed w) = Ok d
    /\ encode_utf8 text = Ok bytes
    /\ json_loads text = Ok v
    /\ res = {| system_prompt := Some (py_strip SYSTEM_PROMPT);
                user_prompt := prompt;
                response := v;
                metadata := augmented llm d (Z.of_nat (length bytes)) |}
    /\ chats (w_events w') = chats (w_events w) ++ [conversation prompt]
    /\ w_files w' = w_files w.
Proof.
  unfold elapsed, end_reading, start_reading, conversation. run_execute.
  destruct (llm_structured_chat llm _) as [[text|]|e] eqn:Hchat; run_execute.
  - destruct (py_ceil _) as [d|e] eqn:Hceil; [|discriminate].
    destruct (encode_utf8 text) as [bytes|e] eqn:Henc; [|discriminate].
    destruct (json_loads text) as [v|[]] eqn:Hloads; try discriminate.
    run_execute.
    intros H. injection H as <- <-.
    exists text, bytes, d, v.
    split; [reflexivity|]. split; [reflexivity|]. split; [assumption|].
    split; [assumption|]. split; [reflexivity|]. split; [|reflexivity].
    cbn [w_events]. rewrite !chats_app. simpl. now rewrite !app_nil_r.
  - destruct (py_ceil _); discriminate.
  - discriminate.
Qed.

(** A call whose every step succeeds returns. *)
Lemma execute_ok_run (llm : LLM) (prompt : pystr) (w : world)
    (text : pystr) (bytes : list Byte.byte) (d : Z) (v : json) :
  llm_structured_chat llm (conversation prompt) = ChatResponse (Some text) ->
  py_ceil (elapsed w) = Ok d ->
  encode_utf8 text = Ok bytes ->
  json_loads text = Ok v ->
  exists w',
    execute (PyLLM llm) (PyValue (JStr prompt)) w =
      (Ok {| system_prompt := Some (py_strip SYSTEM_PROMPT);
             user_prompt := prompt;
             response := v;
             metadata := augmented llm d (Z.of_nat (length bytes)) |}, w').
Proof.
  unfold elapsed, end_reading, start_reading, conversation.
  intros Hchat Hceil Henc Hloads.
  run_execute. rewrite Hchat. run_execute.
  rewrite Hceil, Henc, Hloads. run_execute.
  eexists. reflexivity.
Qed.

(** Whatever the model client answers, it is called once, with the
    conversation built from the prompt. *)
Lemma execute_chats (llm : LLM) (prompt : pystr) (w : world) :
  chats (w_events (snd (execute (PyLLM llm) (PyValue (JStr prompt)) w))) =
  chats (w_events w) ++ [conversation prompt].
Proof.
  unfold conversation. run_execute.
  destruct (llm_structured_chat llm _) as [[text|]|e]; run_execute.
  - destruct (py_ceil _) as [d|e]; run_execute.
    + destruct (encode_utf8 text) as [bytes|e]; run_execute.
      * destruct (json_loads text) as [v|[]]; run_execute;
          cbn [snd w_events]; rewrite !chats_app; simpl;
          now rewrite ?app_nil_r.
      * cbn [snd w_events]. rewrite !chats_app. simpl. now rewrite ?app_nil_r.
    + cbn [snd w_events]. rewrite !chats_app. simpl. now rewrite ?app_nil_r.
  - destruct (py_ceil _) as [d|e]; run_execute;
      cbn [snd w_events]; rewrite !chats_app; simpl; now rewrite ?app_nil_r.
  - cbn [snd w_events]. rewrite !chats_app. simpl. now rewrite ?app_nil_r.
Qed.

(** ** The argument checks *)

(** C8.  A first argument that is no [LLM] instance, or a second one that
    is no [str], makes [execute] raise [ValueError] at once: the world is
    left as it was, so no conversation was sent, nothing was logged, the
    clock was not read and no file was touched. *)
Theorem execute_rejects_arguments (llm prompt : pyobj) (w : world) :
  (isinstance_LLM llm = None ->
   execute llm prompt w = (Raise (ValueError "Invalid LLM instance." None), w))
  /\ (isinstance_LLM llm <> None -> isinstance_str prompt = None ->
      execute llm prompt w = (Raise (ValueError "Invalid query." None), w)).
Proof.
  split.
  - intros H. unfold execute. rewrite H. reflexivity.
  - intros Hllm H. unfold execute.
    destruct (isinstance_LLM llm); [|congruence].
    rewrite H. reflexivity.
Qed.

(** ** The conversation and the prompts kept in the result *)

(** C9.  Called with an [LLM] instance and a [str], [execute] hands the
    client one conversation of two messages, the stripped [SYSTEM_PROMPT]
    in the system role followed by the prompt, unchanged, in the user
    role; a result it returns keeps that same system text and that same
    prompt. *)
Theorem execute_conversation (llm : LLM) (prompt : pystr) (w : world) :
  let outcome := execute (PyLLM llm) (PyValue (JStr prompt)) w in
  chats (w_events (snd outcome)) =
    chats (w_events w)
    ++ [[ {| role := SYSTEM; content := py_strip SYSTEM_PROMPT |};
          {| role := USER; content := prompt |} ]]
  /\ forall res, fst outcome = Ok res ->
       system_prompt res = Some (py_strip SYSTEM_PROMPT)
       /\ user_prompt res = prompt.
Proof.
  cbv zeta. split; [apply execute_chats|].
  intros res Hres.
  destruct (execute (PyLLM llm) (PyValue (JStr prompt)) w) as [r w'] eqn:E.
  simpl in Hres. subst r.
  apply execute_ok_inv in E as (text & bytes & d & v & _ & _ & _ & _ & -> & _).
  split; reflexivity.
Qed.

(** ** The metadata of a result *)

Lemma augmented_lookup (llm : LLM) (d b : Z) :
  dict_get KEY_LLM_CLASSNAME (augmented llm d b) = Some (JStr (llm_class_name llm))
  /\ dict_get KEY_DURATION (augmented llm d b) = Some (JInt d)
  /\ dict_get KEY_RESPONSE_BYTE_COUNT (augmented llm d b) = Some (JInt b)
  /\ (forall k, k <> KEY_LLM_CLASSNAME -> k <> KEY_DURATION ->
                k <> KEY_RESPONSE_BYTE_COUNT ->
                dict_get k (augmented llm d b) = dict_get k (llm_metadata llm)).
Proof.
  unfold augmented, dict_copy. repeat split.
  - rewrite 2 dict_get_set_other by (vm_compute; discriminate).
    apply dict_get_set_same.
  - rewrite dict_get_set_other by (vm_compute; discriminate).
    apply dict_get_set_same.
  - apply dict_get_set_same.
  - intros k H1 H2 H3. rewrite !dict_get_set_other by congruence. reflexivity.
Qed.

(** C10.  The metadata of a returned result holds [llm_classname],
    [duration] and [response_byte_count], set by [execute] over whatever
    the client's own metadata held under those names; every other key has
    the value the client's metadata gives it. *)
Theorem execute_metadata (llm : LLM) (prompt : pystr) (w w' : world)
    (res : CleanupPitch) :
  execute (PyLLM llm) (PyValue (JStr prompt)) w = (Ok res, w') ->
  exists (d : Z) (bytes : list Byte.byte),
    py_ceil (elapsed w) = Ok d
    /\ dict_get KEY_LLM_CLASSNAME (metadata res) = Some (JStr (llm_class_name llm))
    /\ dict_get KEY_DURATION (metadata res) = Some (JInt d)
    /\ dict_get KEY_RESPONSE_BYTE_COUNT (metadata res)
       = Some (JInt (Z.of_nat (length bytes)))
    /\ (forall k, k <> KEY_LLM_CLASSNAME -> k <> KEY_DURATION ->
                  k <> KEY_RESPONSE_BYTE_COUNT ->
                  dict_get k (metadata res) = dict_get k (llm_metadata llm)).
Proof.
  intros E.
  apply execute_ok_inv in E as (text & bytes & d & v & _ & Hd & _ & _ & -> & _).
  exists d, bytes. split; [assumption|]. apply augmented_lookup.
Qed.

(** C5.  In a returned result, [response_byte_count] is the number of
    bytes of the UTF-8 encoding of the reply text, and the response is what
    [json.loads] makes of that very text. *)
Theorem execute_byte_count (llm : LLM) (prompt : pystr) (w w' : world)
    (res : CleanupPitch) :
  execute (PyLLM llm) (PyValue (JStr prompt)) w = (Ok res, w') ->
  exists (text : pystr) (bytes : list Byte.byte),
    llm_structured_chat llm (conversation prompt) = ChatResponse (Some text)
    /\ encode_utf8 text = Ok bytes
    /\ dict_get KEY_RESPONSE_BYTE_COUNT (metadata res)
       = Some (JInt (Z.of_nat (length bytes)))
    /\ json_loads text = Ok (response res).
Proof.
  intros E.
  apply execute_ok_inv in E
    as (text & bytes & d & v & Hchat & _ & Henc & Hloads & -> & _).
  exists text, bytes. repeat split; try assumption.
  apply augmented_lookup.
Qed.

(** ** A reply that is not JSON *)


(** ** The shape of the response *)



(** ** Floats: the sign of a difference *)

Local Open Scope Z_scope.

Lemma binary_round_aux_not_negative (mx ex : Z) (lx : location) :
  not_negative (binary_round_aux prec emax false mx ex lx).
Proof.
  unfold binary_round_aux.
  destruct (shr_fexp prec emax mx ex lx) as [mrs' e'].
  destruct (shr_fexp prec emax _ e' loc_Exact) as [mrs'' e''].
  destruct (shr_m mrs'') as [|m|m]; simpl; auto.
  destruct (e'' <=? 971); simpl; auto.
Qed.

Lemma binary_normalize_not_negative (m e : Z) :
  0 <= m -> not_negative (binary_normalize prec emax m e false).
Proof.
  intros Hm. destruct m as [|m|m]; simpl; auto; [|lia].
  unfold binary_round.
  destruct (shl_align m e _) as [mz ez].
  apply binary_round_aux_not_negative.
Qed.

Lemma digits2_pos_bounds (m : positive) :
  2 ^ (Zpos (digits2_pos m) - 1) <= Zpos m < 2 ^ Zpos (digits2_pos m).
Proof.
  induction m as [m IH|m IH|]; simpl digits2_pos.
  - rewrite Pos2Z.inj_succ.
    replace (Z.succ (Zpos (digits2_pos m)) - 1) with (Z.succ (Zpos (digits2_pos m) - 1)) by lia.
    rewrite !Z.pow_succ_r by lia. lia.
  - rewrite Pos2Z.inj_succ.
    replace (Z.succ (Zpos (digits2_pos m)) - 1) with (Z.succ (Zpos (digits2_pos m) - 1)) by lia.
    rewrite !Z.pow_succ_r by lia. lia.
  - simpl. lia.
Qed.

Lemma shl_align_value (m : positive) (e ez : Z) :
  ez <= e -> Zpos (fst (shl_align m e ez)) = Zpos m * 2 ^ (e - ez).
Proof.
  intros Hle. unfold shl_align.
  destruct (ez - e) as [|d|d] eqn:Hd; simpl fst.
  - replace (e - ez) with 0 by lia. simpl. lia.
  - lia.
  - replace (e - ez) with (Zpos d) by lia.
    change (Pos.iter xO m d) with (shift_pos d m).
    rewrite shift_pos_correct. change (2 ^ Zpos d) with (Z.pow_pos 2 d). lia.
Qed.

(** Floats in canonical form with the same sign order by exponent first. *)
Lemma canonical_exponent_order (m1 m2 : positive) (e1 e2 : Z) :
  canonical_mantissa prec emax m1 e1 = true ->
  canonical_mantissa prec emax m2 e2 = true ->
  e1 < e2 ->
  Zpos m1 < Zpos m2 * 2 ^ (e2 - e1).
Proof.
  unfold canonical_mantissa, fexp, SpecFloat.emin. intros H1 H2 Hlt.
  apply Z.eqb_eq in H1, H2.
  pose proof (digits2_pos_bounds m1) as [_ Hu1].
  pose proof (digits2_pos_bounds m2) as [Hl2 _].
  set (d1 := Zpos (digits2_pos m1)) in *.
  set (d2 := Zpos (digits2_pos m2)) in *.
  assert (Hd : d1 + e1 <= d2 + e2 - 1) by lia.
  assert (Hpow : 2 ^ d1 <= 2 ^ (d2 - 1) * 2 ^ (e2 - e1)).
  { rewrite <- Z.pow_add_r by (subst d2; lia).
    apply Z.pow_le_mono_r; lia. }
  assert (0 < 2 ^ (e2 - e1)) by (apply Z.pow_pos_nonneg; lia).
  nia.
Qed.

Lemma compare_cont_Eq_le (m1 m2 : positive) :
  Pos.compare_cont Eq m1 m2 <> Gt -> (m1 <= m2)%positive.
Proof. intros H. unfold Pos.le, Pos.compare. exact H. Qed.

Lemma compare_cont_Eq_ge (m1 m2 : positive) :
  Pos.compare_cont Eq m1 m2 <> Lt -> (m2 <= m1)%positive.
Proof.
  intros H. apply Pos.ge_le. unfold Pos.ge, Pos.compare. exact H.
Qed.

(** The later of two ordered binary64 readings minus the earlier one is
    never a negative number. *)
Lemma float_sub_not_negative (x y : float) :
  is_binary64 x = true -> is_binary64 y = true ->
  float_le y x = true ->
  not_negative (float_sub x y).
Proof.
  unfold is_binary64, float_le, float_sub, SFleb.
  destruct x as [sx|sx| |sx mx ex], y as [sy|sy| |sy my ey];
    simpl; intros Hx Hy Hle; try discriminate; auto;
    try (destruct sx, sy; simpl in *; auto; discriminate);
    try (destruct sx; simpl in *; auto; discriminate);
    try (destruct sy; simpl in *; auto; discriminate).
  apply binary_normalize_not_negative.
  unfold bounded in Hx, Hy.
  apply andb_true_iff in Hx as [Hx _], Hy as [Hy _].
  pose proof (shl_align_value mx ex (Z.min ex ey) ltac:(lia)) as Ax.
  pose proof (shl_align_value my ey (Z.min ex ey) ltac:(lia)) as Ay.
  rewrite Ax, Ay. clear Ax Ay.
  destruct sx, sy; unfold cond_Zopp; simpl in Hle; try discriminate.
  - (* both negative *)
    destruct (ey ?= ex) eqn:C; try discriminate.
    + apply Z.compare_eq in C. subst ey.
      rewrite Z.min_id, Z.sub_diag. change (2 ^ 0) with 1.
      assert (mx <= my)%positive.
      { apply compare_cont_Eq_ge.
        destruct (Pos.compare_cont Eq my mx); simpl in Hle; congruence. }
      lia.
    + apply Z.compare_gt_iff in C.
      pose proof (canonical_exponent_order mx my ex ey Hx Hy C).
      rewrite Z.min_l by lia. rewrite Z.sub_diag. change (2 ^ 0) with 1. lia.
  - (* x negative, y positive: excluded by the order *)
    assert (0 < 2 ^ (ex - Z.min ex ey)) by (apply Z.pow_pos_nonneg; lia).
    assert (0 < 2 ^ (ey - Z.min ex ey)) by (apply Z.pow_pos_nonneg; lia).
    lia.
  - (* both positive *)
    destruct (ey ?= ex) eqn:C; try discriminate.
    + apply Z.compare_eq in C. subst ey.
      rewrite Z.min_id, Z.sub_diag. change (2 ^ 0) with 1.
      assert (my <= mx)%positive.
      { apply compare_cont_Eq_le.
        destruct (Pos.compare_cont Eq my mx); simpl in Hle; congruence. }
      lia.
    + change (ey < ex) in C.
      pose proof (canonical_exponent_order my mx ey ex Hy Hx C).
      rewrite Z.min_r by lia. rewrite Z.sub_diag. change (2 ^ 0) with 1. lia.
Qed.

Lemma float_value_nonneg (x : float) :
  not_negative x -> (0 <= float_value x)%Q.
Proof.
  destruct x as [s|s| |s m e]; simpl; intros H; try apply Qle_refl.
  subst s. simpl cond_Zopp.
  apply Qmult_le_0_compat.
  - change 0%Q with (inject_Z 0). rewrite <- Zle_Qle. lia.
  - apply Qpower_0_le. discriminate.
Qed.

Lemma py_ceil_value (x : float) (d : Z) :
  py_ceil x = Ok d -> d = Qceiling (float_value x).
Proof. destruct x; simpl; intros H; congruence. Qed.

Lemma py_ceil_nonneg (x : float) (d : Z) :
  not_negative x -> py_ceil x = Ok d -> 0 <= d.
Proof.
  intros Hx Hd. apply py_ceil_value in Hd. subst d.
  change 0 with (Qceiling (inject_Z 0)).
  apply Qceiling_resp_le, float_value_nonneg, Hx.
Qed.

(** C4.  The [duration] in the metadata of a returned result is the
    ceiling of the elapsed time, the difference of the two clock readings
    as the float subtraction gives it; so it is no less than the floor of
    the elapsed time; and with the clock not running backwards (two
    binary64 readings, the first no later than the second) it is not
    negative. *)
Theorem execute_duration (llm : LLM) (prompt : pystr) (w w' : world)
    (res : CleanupPitch) :
  execute (PyLLM llm) (PyValue (JStr prompt)) w = (Ok res, w') ->
  exists d : Z,
    dict_get KEY_DURATION (metadata res) = Some (JInt d)
    /\ d = Qceiling (float_value (elapsed w))
    /\ Qfloor (float_value (elapsed w)) <= d
    /\ (is_binary64 (start_reading w) = true ->
        is_binary64 (end_reading w) = true ->
        float_le (start_reading w) (end_reading w) = true ->
        0 <= d).
Proof.
  intros E.
  apply execute_ok_inv in E as (text & bytes & d & v & _ & Hd & _ & _ & -> & _).
  exists d. split; [apply augmented_lookup|].
  pose proof (py_ceil_value _ _ Hd) as Hv.
  split; [exact Hv|]. split.
  - rewrite Hv, Zle_Qle. apply Qle_floor_ceiling.
  - intros Hs He Hle.
    apply (py_ceil_nonneg (elapsed w)); [|exact Hd].
    now apply float_sub_not_negative.
Qed.

(** ** Strings: the decoder undoes the encoder *)

Local Open Scope N_scope.

Ltac nprop :=
  repeat match goal with
  | H : (_ && _) = true |- _ => apply andb_true_iff in H; destruct H
  | H : negb _ = true |- _ => apply negb_true_iff in H
  | H : (_ =? _) = true |- _ => apply N.eqb_eq in H
  | H : (_ =? _) = false |- _ => apply N.eqb_neq in H
  | H : (_ <=? _) = true |- _ => apply N.leb_le in H
  | H : (_ <=? _) = false |- _ => apply N.leb_gt in H
  | H : (_ <? _) = true |- _ => apply N.ltb_lt in H
  | H : (_ <? _) = false |- _ => apply N.ltb_ge in H
  end.


Lemma leb_true (a b : N) : a <= b -> (a <=? b) = true.
Proof. apply N.leb_le. Qed.

Lemma leb_false (a b : N) : b < a -> (a <=? b) = false.
Proof. apply N.leb_gt. Qed.

Lemma ltb_true (a b : N) : a < b -> (a <? b) = true.
Proof. apply N.ltb_lt. Qed.

Lemma ltb_false (a b : N) : b <= a -> (a <? b) = false.
Proof. apply N.ltb_ge. Qed.




Lemma lor_shifted (h x : N) :
  N.lor (N.shiftl h 10) (N.land x (N.ones 10)) = h * 1024 + x mod 1024.
Proof.
  rewrite <- N.lxor_lor, <- N.add_nocarry_lxor.
  - now rewrite N.shiftl_mul_pow2, N.land_ones.
  - apply N.bits_inj. intros i. rewrite N.land_spec, N.land_spec, N.bits_0.
    destruct (N.lt_ge_cases i 10) as [Hi|Hi].
    + now rewrite N.shiftl_spec_low.
    + rewrite (N.ones_spec_high 10 i Hi). now rewrite !andb_false_r.
  - apply N.bits_inj. intros i. rewrite N.land_spec, N.land_spec, N.bits_0.
    destruct (N.lt_ge_cases i 10) as [Hi|Hi].
    + now rewrite N.shiftl_spec_low.
    + rewrite (N.ones_spec_high 10 i Hi). now rewrite !andb_false_r.
Qed.








(** ** Integers: the decoder undoes the encoder *)















(** ** The decoder's recursion budget

    Every scanner that succeeds leaves less text than it was given; with
    that, the budget [json_loads] hands out is never exhausted, and a
    larger budget changes no answer. *)

Local Open Scope nat_scope.

Lemma skip_ws_length (s : pystr) : length (skip_ws s) <= length s.
Proof.
  induction s as [|c s IH]; simpl; [lia|].
  destruct (is_ws c); simpl; lia.
Qed.

Lemma strip_prefix_length (p s r : pystr) :
  strip_prefix p s = Some r -> length r + length p = length s.
Proof.
  revert s. induction p as [|a p IH]; intros [|b s]; simpl; intros H;
    try discriminate; try (injection H as <-; simpl; lia).
  destruct (a =? b)%N; [|discriminate]. apply IH in H. lia.
Qed.

Lemma hex4_length (s r : pystr) (n : N) :
  hex4 s = Some (n, r) -> length r + 4 = length s.
Proof.
  unfold hex4. destruct s as [|a [|b [|c [|d s]]]]; try discriminate.
  destruct (hex_val a), (hex_val b), (hex_val c), (hex_val d); try discriminate.
  intros H. injection H as _ <-. simpl. lia.
Qed.

Lemma scan_item_length (s r : pystr) (it : item) :
  scan_item s = Scanned it r -> length r < length s.
Proof.
  unfold scan_item. destruct s as [|c s]; [discriminate|].
  destruct (c =? DQUOTE)%N; [intros H; injection H as _ <-; simpl; lia|].
  destruct (c =? BACKSLASH)%N.
  - destruct s as [|esc r1]; [discriminate|].
    destruct (esc =? ord "u")%N.
    + destruct (hex4 r1) as [[uni r2]|] eqn:E1; [|discriminate].
      apply hex4_length in E1.
      destruct (is_high_surrogate uni);
        [|intros H; injection H as _ <-; simpl; lia].
      destruct r2 as [|b [|u r3]];
        try (intros H; injection H as _ <-; simpl in *; lia).
      destruct ((b =? BACKSLASH) && (u =? ord "u"))%N;
        [|intros H; injection H as _ <-; simpl in *; lia].
      destruct (hex4 r3) as [[uni2 r4]|] eqn:E2; [|discriminate].
      apply hex4_length in E2.
      destruct (is_low_surrogate uni2);
        intros H; injection H as _ <-; simpl in *; lia.
    + destruct (unescape esc); [|discriminate].
      intros H; injection H as _ <-; simpl; lia.
  - destruct (c <? 32)%N; [discriminate|].
    intros H; injection H as _ <-; simpl; lia.
Qed.

Lemma scanstring_length (fuel : nat) (s r cs : pystr) :
  scanstring fuel s = Scanned cs r -> length r < length s.
Proof.
  revert s r cs. induction fuel as [|fuel IH]; intros s r cs; simpl;
    [discriminate|].
  destruct (scan_item s) as [[|c] r1| |] eqn:E; try discriminate.
  - apply scan_item_length in E. intros H; injection H as _ <-. exact E.
  - apply scan_item_length in E.
    destruct (scanstring fuel r1) as [cs' r'| |] eqn:E'; try discriminate.
    apply IH in E'. intros H; injection H as _ <-. lia.
Qed.

Lemma scanstring_fed (fuel : nat) (s : pystr) :
  length s < fuel -> scanstring fuel s <> Starved.
Proof.
  revert s. induction fuel as [|fuel IH]; intros s Hlen; [lia|]. simpl.
  destruct (scan_item s) as [[|c] r1| |] eqn:E; try discriminate.
  - apply scan_item_length in E.
    specialize (IH r1 ltac:(lia)).
    destruct (scanstring fuel r1); try discriminate. contradiction.
  - unfold scan_item in E.
    repeat match type of E with
           | match ?x with _ => _ end = _ => destruct x; try discriminate
           | (if ?x then _ else _) = _ => destruct x; try discriminate
           | (let (_, _) := ?x in _) = _ => destruct x; try discriminate
           end.
Qed.

Lemma scan_str_length (s r cs : pystr) :
  scan_str s = Scanned cs r -> length r < length s.
Proof. apply scanstring_length. Qed.

Lemma scan_str_fed (s : pystr) : scan_str s <> Starved.
Proof. apply scanstring_fed. lia. Qed.

Lemma span_digits_length (s : pystr) :
  length (snd (span_digits s)) <= length s.
Proof.
  induction s as [|c s IH]; simpl; [lia|].
  destruct (is_digit c); [|simpl; lia].
  destruct (span_digits s); simpl in *; lia.
Qed.

Lemma match_unsigned_length (s ds r : pystr) :
  match_unsigned s = Some (ds, r) -> length r < length s.
Proof.
  unfold match_unsigned. destruct s as [|c s]; [discriminate|].
  destruct (c =? ord "0")%N; [intros H; injection H as _ <-; simpl; lia|].
  destruct (is_digit c); [|discriminate].
  pose proof (span_digits_length s).
  destruct (span_digits s). intros H'; injection H' as _ <-. simpl in *; lia.
Qed.

Lemma match_integer_length (s ds r : pystr) :
  match_integer s = Some (ds, r) -> length r < length s.
Proof.
  unfold match_integer. destruct s as [|c s]; [discriminate|].
  destruct (c =? ord "-")%N.
  - destruct (match_unsigned s) as [[ds' r']|] eqn:E; [|discriminate].
    apply match_unsigned_length in E.
    intros H; injection H as _ <-. simpl; lia.
  - apply match_unsigned_length.
Qed.

Lemma match_frac_length (s : pystr) :
  length (snd (match_frac s)) <= length s.
Proof.
  unfold match_frac. destruct s as [|c s]; [simpl; lia|].
  destruct (c =? ord ".")%N; [|simpl; lia].
  pose proof (span_digits_length s).
  destruct (span_digits s) as [[|d ds] r]; simpl in *; lia.
Qed.

Lemma match_exp_length (s : pystr) :
  length (snd (match_exp s)) <= length s.
Proof.
  unfold match_exp. destruct s as [|c s]; [simpl; lia|].
  destruct ((c =? ord "e") || (c =? ord "E"))%N; [|simpl; lia].
  destruct s as [|c2 s'].
  - simpl. lia.
  - destruct ((c2 =? ord "-") || (c2 =? ord "+"))%N.
    + pose proof (span_digits_length s').
      destruct (span_digits s') as [[|d ds] r]; simpl in *; lia.
    + pose proof (span_digits_length (c2 :: s')).
      destruct (span_digits (c2 :: s')) as [[|d ds] r]; simpl in *; lia.
Qed.

Lemma match_number_length (s r : pystr) (v : json) :
  match_number s = Some (v, r) -> length r < length s.
Proof.
  unfold match_number.
  destruct (match_integer s) as [[integer r0]|] eqn:E; [|discriminate].
  apply match_integer_length in E.
  pose proof (match_frac_length r0).
  destruct (match_frac r0) as [frac r1].
  pose proof (match_exp_length r1).
  destruct (match_exp r1) as [exp r2]. simpl in *.
  destruct frac, exp; intros H'; injection H' as _ <-; lia.
Qed.

Lemma scan_atom_length (s r : pystr) (v : json) :
  scan_atom s = Scanned v r -> length r < length s.
Proof.
  unfold scan_atom.
  repeat match goal with
  | |- match strip_prefix ?p s with _ => _ end = _ -> _ =>
      let E := fresh "E" in
      destruct (strip_prefix p s) eqn:E;
        [apply strip_prefix_length in E; simpl in E;
         intros H; injection H as _ <-; lia|]
  | |- match match_number s with _ => _ end = _ -> _ =>
      let E := fresh "E" in
      destruct (match_number s) as [[? ?]|] eqn:E;
        [apply match_number_length in E;
         intros H; injection H as _ <-; lia|]
  end.
  discriminate.
Qed.

Lemma scan_atom_fed (s : pystr) : scan_atom s <> Starved.
Proof.
  unfold scan_atom.
  repeat match goal with
  | |- match ?x with _ => _ end <> _ => destruct x as [[? ?]|] || destruct x
  end; discriminate.
Qed.

Ltac split_scan H :=
  repeat match type of H with
  | match ?x with _ => _ end = _ => destruct x eqn:?; try discriminate H
  | (if ?x then _ else _) = _ => destruct x eqn:?; try discriminate H
  end.

Ltac length_facts :=
  repeat match goal with
  | E : skip_ws ?s = _ |- _ =>
      let L := fresh "L" in
      pose proof (skip_ws_length s) as L; rewrite E in L; simpl in L; clear E
  | E : scan_str _ = Scanned _ _ |- _ => apply scan_str_length in E
  | E : scan_atom _ = Scanned _ _ |- _ => apply scan_atom_length in E
  | IH : (forall s v r, scan_once ?f s = Scanned v r -> _),
    E : scan_once ?f _ = Scanned _ _ |- _ => apply IH in E
  | IH : (forall s v r, array_items ?f s = Scanned v r -> _),
    E : array_items ?f _ = Scanned _ _ |- _ => apply IH in E
  | IH : (forall s v r, object_items ?f s = Scanned v r -> _),
    E : object_items ?f _ = Scanned _ _ |- _ => apply IH in E
  end.

Ltac ws_facts :=
  repeat match goal with
  | H : context [skip_ws ?x] |- _ =>
      pose proof (skip_ws_length x); generalize dependent (skip_ws x); intros
  end.

Ltac len_lia := unfold pystr, codepoint in *; simpl in *; lia.

Lemma scan_lengths (f : nat) :
  (forall s v r, scan_once f s = Scanned v r -> length r < length s)
  /\ (forall s v r, array_items f s = Scanned v r -> length r < length s)
  /\ (forall s v r, object_items f s = Scanned v r -> length r < length s).
Proof.
  induction f as [|f (IH1 & IH2 & IH3)];
    [repeat split; intros; discriminate|].
  repeat split; intros s v r H.
  - destruct s as [|c s]; [discriminate|]. cbn [scan_once] in H.
    destruct (c =? DQUOTE)%N; [|destruct (c =? ord "{")%N;
      [|destruct (c =? ord "[")%N]].
    + split_scan H. injection H as _ <-. length_facts. len_lia.
    + split_scan H; injection H as _ <-; length_facts; len_lia.
    + split_scan H; injection H as _ <-; length_facts; len_lia.
    + now apply scan_atom_length in H.
  - cbn [array_items] in H.
    split_scan H; injection H as _ <-; length_facts; ws_facts; len_lia.
  - cbn [object_items] in H.
    split_scan H; injection H as _ <-; length_facts; ws_facts; len_lia.
Qed.

Ltac ws_goal :=
  repeat match goal with
  | |- context [skip_ws ?x] =>
      pose proof (skip_ws_length x); generalize dependent (skip_ws x); intros
  end.

Lemma scan_fed (f : nat) :
  (forall s, 2 * length s < f -> scan_once f s <> Starved)
  /\ (forall s, 2 * length s + 1 < f -> array_items f s <> Starved)
  /\ (forall s, 2 * length s + 1 < f -> object_items f s <> Starved).
Proof.
  induction f as [|f (IH1 & IH2 & IH3)]; [repeat split; intros; lia|].
  destruct (scan_lengths f) as (L1 & L2 & L3).
  repeat split; intros s Hlen H.
  - destruct s as [|c s]; [discriminate|]. cbn [scan_once] in H.
    destruct (c =? DQUOTE)%N; [|destruct (c =? ord "{")%N;
      [|destruct (c =? ord "[")%N]].
    + split_scan H. eapply scan_str_fed; eassumption.
    + split_scan H.
      match goal with E : object_items f _ = Starved |- _ =>
        apply IH3 in E; [exact E|] end.
      length_facts. len_lia.
    + split_scan H.
      match goal with E : array_items f _ = Starved |- _ =>
        apply IH2 in E; [exact E|] end.
      length_facts. len_lia.
    + eapply scan_atom_fed; eassumption.
  - cbn [array_items] in H. split_scan H.
    + match goal with E : array_items f _ = Starved |- _ =>
        apply IH2 in E; [exact E|] end.
      length_facts. ws_goal. ws_facts. len_lia.
    + match goal with E : scan_once f _ = Starved |- _ =>
        apply IH1 in E; [exact E|] end.
      len_lia.
  - cbn [object_items] in H. split_scan H.
    + match goal with E : object_items f _ = Starved |- _ =>
        apply IH3 in E; [exact E|] end.
      length_facts. ws_goal. ws_facts. len_lia.
    + match goal with E : scan_once f _ = Starved |- _ =>
        apply IH1 in E; [exact E|] end.
      length_facts. ws_goal. ws_facts. len_lia.
    + eapply scan_str_fed; eassumption.
Qed.

Lemma scan_grow (f : nat) :
  (forall s r, scan_once f s = r -> r <> Starved -> scan_once (S f) s = r)
  /\ (forall s r, array_items f s = r -> r <> Starved ->
                  array_items (S f) s = r)
  /\ (forall s r, object_items f s = r -> r <> Starved ->
                  object_items (S f) s = r).
Proof.
  induction f as [|f (IH1 & IH2 & IH3)];
    [repeat split; intros s r H Hr; simpl in H; congruence|].
  repeat split; intros s r H Hr.
  - destruct s as [|c s]; [exact H|].
    cbn [scan_once] in H. cbn [scan_once].
    destruct (c =? DQUOTE)%N; [exact H|].
    destruct (c =? ord "{")%N.
    + destruct (skip_ws s) as [|q r1]; [exact H|].
      destruct (q =? DQUOTE)%N; [|exact H].
      destruct (object_items f r1) eqn:E;
        try (rewrite (IH3 _ _ E) by discriminate; exact H).
      congruence.
    + destruct (c =? ord "[")%N; [|exact H].
      destruct (skip_ws s) as [|q r1]; [exact H|].
      destruct (q =? ord "]")%N; [exact H|].
      destruct (array_items f (q :: r1)) eqn:E;
        try (rewrite (IH2 _ _ E) by discriminate; exact H).
      congruence.
  - cbn [array_items] in H.
    remember (S f) as f1 eqn:Ef1. cbn [array_items]. subst f1.
    destruct (scan_once f s) eqn:E; [| |congruence];
      rewrite (IH1 _ _ E) by discriminate; [|exact H].
    destruct (skip_ws rest) as [|c r1]; [exact H|].
    destruct (c =? ord "]")%N; [exact H|].
    destruct (c =? ord ",")%N; [|exact H].
    destruct (array_items f (skip_ws r1)) eqn:E2;
      try (rewrite (IH2 _ _ E2) by discriminate; exact H).
    congruence.
  - cbn [object_items] in H.
    remember (S f) as f1 eqn:Ef1. cbn [object_items]. subst f1.
    destruct (scan_str s) as [key r0| |]; [|exact H|exact H].
    destruct (skip_ws r0) as [|c r1]; [exact H|].
    destruct (c =? ord ":")%N; [|exact H].
    destruct (scan_once f (skip_ws r1)) eqn:E; [| |congruence];
      rewrite (IH1 _ _ E) by discriminate; [|exact H].
    destruct (skip_ws rest) as [|c2 r3]; [exact H|].
    destruct (c2 =? ord "}")%N; [exact H|].
    destruct (c2 =? ord ",")%N; [|exact H].
    destruct (skip_ws r3) as [|q r4]; [exact H|].
    destruct (q =? DQUOTE)%N; [|exact H].
    destruct (object_items f r4) eqn:E2;
      try (rewrite (IH3 _ _ E2) by discriminate; exact H).
    congruence.
Qed.

Lemma scan_once_grow (f f' : nat) (s : pystr) (r : scan json) :
  scan_once f s = r -> r <> Starved -> f <= f' -> scan_once f' s = r.
Proof.
  intros H Hr Hle. induction Hle as [|f' _ IH]; [exact H|].
  now apply scan_grow.
Qed.


(** The budget of [json_loads] is never exhausted: whenever it reports an
    error, the text is one the decoder rejects. *)
Theorem json_loads_fed (s : pystr) :
  scan_once (scan_budget (skip_ws s)) (skip_ws s) <> Starved.
Proof. apply scan_fed. unfold scan_budget. lia. Qed.

(** A budget larger than the one [json_loads] hands out changes nothing. *)
Lemma json_loads_budget_free (s : pystr) (f : nat) :
  scan_budget (skip_ws s) <= f ->
  scan_once f (skip_ws s) = scan_once (scan_budget (skip_ws s)) (skip_ws s).
Proof.
  intros Hle.
  apply (scan_once_grow (scan_budget (skip_ws s)));
    [reflexivity|apply json_loads_fed|exact Hle].
Qed.

(** ** Values: the decoder undoes the encoder *)

(** Induction on a value with the hypothesis at hand for every element of
    a list and every value of a mapping. *)
Lemma json_nested_ind (P : json -> Prop) :
  P JNull ->
  (forall b, P (JBool b)) ->
  (forall n, P (JInt n)) ->
  (forall f, P (JFloat f)) ->
  (forall s, P (JStr s)) ->
  (forall l, Forall P l -> P (JList l)) ->
  (forall d, Forall (fun kv => P (snd kv)) d -> P (JDict d)) ->
  forall v, P v.
Proof.
  intros HNull HBool HInt HFloat HStr HList HDict.
  fix IH 1.
  intros [|b|n|f|s|l|d];
    [apply HNull|apply HBool|apply HInt|apply HFloat|apply HStr| |].
  - apply HList. revert l. fix IHl 1.
    intros [|x l]; constructor; [apply IH|apply IHl].
  - apply HDict. revert d. fix IHd 1.
    intros [|[k x] d]; constructor; [apply IH|apply IHd].
Qed.





Lemma existsb_pystr_eqb (k : pystr) (ks : list pystr) :
  existsb (pystr_eqb k) ks = false -> ~ In k ks.
Proof.
  intros H Hin.
  assert (existsb (pystr_eqb k) ks = true); [|congruence].
  apply existsb_exists. exists k. split; [assumption|apply pystr_eqb_refl].
Qed.


Section RoundTrip.

Variable float_repr : pystr -> pystr.










End RoundTrip.

(** ** The encoder writes plain ASCII

    With [ensure_ascii] at its default every character of the text is
    below 128, so the bytes of the file do not depend on the encoding the
    file is opened with. *)

Local Open Scope N_scope.

Lemma hex_digit_ascii (d : N) : d < 16 -> hex_digit d < 128.
Proof. intros Hd. unfold hex_digit. destruct (d <? 10); lia. Qed.

Lemma u_escape_ascii (n : N) : is_ascii_text (u_escape n).
Proof.
  unfold u_escape, hex4_chars.
  repeat constructor; apply hex_digit_ascii, N.mod_lt; discriminate.
Qed.

Lemma escape_char_ascii (c : N) : is_ascii_text (escape_char c).
Proof.
  unfold escape_char.
  repeat match goal with
  | |- is_ascii_text (if ?b then _ else _) =>
      let E := fresh "E" in
      destruct b eqn:E; [try (repeat constructor; reflexivity)|]
  end.
  - nprop. repeat constructor. lia.
  - apply u_escape_ascii.
  - apply Forall_app. split; apply u_escape_ascii.
Qed.

Lemma escape_body_ascii (s : pystr) : is_ascii_text (escape_body s).
Proof.
  induction s as [|c s IH]; [constructor|].
  unfold escape_body. simpl. apply Forall_app. split;
    [apply escape_char_ascii|exact IH].
Qed.

Lemma basestring_ascii (s : pystr) : is_ascii_text (encode_basestring_ascii s).
Proof.
  unfold encode_basestring_ascii. constructor; [reflexivity|].
  apply Forall_app. split; [apply escape_body_ascii|].
  repeat constructor.
Qed.

Lemma int_repr_ascii (z : Z) : is_ascii_text (int_repr z).
Proof.
  assert (H : forall u, is_ascii_text (uint_chars u))
    by (induction u; simpl; constructor; auto; reflexivity).
  unfold int_repr. destruct (Z.to_int z); [apply H|].
  constructor; [reflexivity|apply H].
Qed.

Lemma newline_indent_ascii (level : nat) : is_ascii_text (newline_indent level).
Proof.
  unfold newline_indent. constructor; [reflexivity|].
  induction (2 * level)%nat; simpl; constructor; auto. reflexivity.
Qed.

Lemma join_ascii (sep : pystr) (chunks : list pystr) :
  is_ascii_text sep -> Forall is_ascii_text chunks ->
  is_ascii_text (join sep chunks).
Proof.
  intros Hsep Hall. induction Hall as [|x xs Hx Hxs IH]; [constructor|].
  destruct xs as [|y xs]; [exact Hx|].
  cbn [join]. apply Forall_app. split; [exact Hx|].
  apply Forall_app. split; [exact Hsep|exact IH].
Qed.

Section EncoderAscii.

Variable float_repr : pystr -> pystr.



End EncoderAscii.

(** ** [save_raw] and reading the file back *)

Local Open Scope nat_scope.

Lemma distinct_NoDup (ks : list pystr) : distinct ks = true <-> NoDup ks.
Proof.
  induction ks as [|k ks IH]; simpl.
  - split; [constructor|reflexivity].
  - rewrite andb_true_iff, negb_true_iff, IH. split.
    + intros [Hk Hnd]. constructor; [now apply existsb_pystr_eqb|assumption].
    + intros Hnd. inversion Hnd as [|? ? Hk Hnd']; subst. split; [|assumption].
      destruct (existsb (pystr_eqb k) ks) eqn:E; [|reflexivity].
      apply existsb_exists in E as (k' & Hin & Heq).
      apply pystr_eqb_eq in Heq. subst k'. contradiction.
Qed.





Section SaveRawRoundTrip.

Variable float_repr : pystr -> pystr.


End SaveRawRoundTrip.

(** ** What the decoder builds is well shaped

    From a text that encodes to UTF-8 the decoder builds strings in which
    no high surrogate stands directly before a low one, and mappings with
    one pair per key: every value [execute] puts in a result is stable as
    soon as it holds no float. *)

Local Open Scope nat_scope.

Lemma suffix_refl (s : pystr) : suffix s s.
Proof. now exists []. Qed.

Lemma suffix_trans (a b c : pystr) : suffix a b -> suffix b c -> suffix a c.
Proof.
  intros [p ->] [q ->]. exists (q ++ p). now rewrite app_assoc.
Qed.

Lemma suffix_cons (c : codepoint) (r s : pystr) :
  suffix r s -> suffix r (c :: s).
Proof. intros [p ->]. now exists (c :: p). Qed.

Lemma suffix_tail (c : codepoint) (r s : pystr) :
  suffix (c :: r) s -> suffix r s.
Proof. intros [p ->]. exists (p ++ [c]). now rewrite <- app_assoc. Qed.

Lemma clean_suffix (r s : pystr) : suffix r s -> clean s -> clean r.
Proof. intros [p ->] H. now apply Forall_app in H. Qed.

Create HintDb suffix.
#[local] Hint Resolve suffix_refl suffix_cons : suffix.

Lemma skip_ws_suffix (s : pystr) : suffix (skip_ws s) s.
Proof.
  induction s as [|c s IH]; simpl; [apply suffix_refl|].
  destruct (is_ws c); auto with suffix.
Qed.

Lemma strip_prefix_suffix (p s r : pystr) :
  strip_prefix p s = Some r -> suffix r s.
Proof.
  revert s. induction p as [|a p IH]; intros [|b s]; simpl; intros H;
    try discriminate; try (injection H as <-; apply suffix_refl).
  destruct (a =? b)%N; [|discriminate]. auto with suffix.
Qed.

Lemma hex4_suffix (s r : pystr) (n : N) :
  hex4 s = Some (n, r) -> suffix r s.
Proof.
  unfold hex4. destruct s as [|a [|b [|c [|d s]]]]; try discriminate.
  destruct (hex_val a), (hex_val b), (hex_val c), (hex_val d); try discriminate.
  intros H. injection H as _ <-. auto with suffix.
Qed.

Lemma scan_item_suffix (s r : pystr) (it : item) :
  scan_item s = Scanned it r -> suffix r s.
Proof.
  unfold scan_item. intros H.
  repeat match type of H with
  | match hex4 ?x with _ => _ end = _ =>
      let E := fresh "E" in
      destruct (hex4 x) as [[? ?]|] eqn:E;
        [apply hex4_suffix in E|discriminate H]
  | match ?x with _ => _ end = _ => destruct x; try discriminate H
  | (if ?x then _ else _) = _ => destruct x; try discriminate H
  end;
  injection H as _ <-;
  eauto 8 using suffix_trans, suffix_tail with suffix.
Qed.

Lemma scanstring_suffix (fuel : nat) (s r cs : pystr) :
  scanstring fuel s = Scanned cs r -> suffix r s.
Proof.
  revert s r cs. induction fuel as [|fuel IH]; intros s r cs; simpl;
    [discriminate|].
  destruct (scan_item s) as [[|c] r1| |] eqn:E; try discriminate;
    apply scan_item_suffix in E.
  - intros H; injection H as _ <-. exact E.
  - destruct (scanstring fuel r1) as [cs' r'| |] eqn:E'; try discriminate.
    apply IH in E'. intros H; injection H as _ <-.
    now apply (suffix_trans _ r1).
Qed.

Lemma span_digits_suffix (s : pystr) : suffix (snd (span_digits s)) s.
Proof.
  induction s as [|c s IH]; simpl; [apply suffix_refl|].
  destruct (is_digit c); [|apply suffix_refl].
  destruct (span_digits s); simpl in *. auto with suffix.
Qed.

Lemma match_unsigned_suffix (s ds r : pystr) :
  match_unsigned s = Some (ds, r) -> suffix r s.
Proof.
  unfold match_unsigned. destruct s as [|c s]; [discriminate|].
  destruct (c =? ord "0")%N;
    [intros H; injection H as _ <-; auto with suffix|].
  destruct (is_digit c); [|discriminate].
  pose proof (span_digits_suffix s).
  destruct (span_digits s). intros H'; injection H' as _ <-.
  auto with suffix.
Qed.

Lemma match_integer_suffix (s ds r : pystr) :
  match_integer s = Some (ds, r) -> suffix r s.
Proof.
  unfold match_integer. destruct s as [|c s]; [discriminate|].
  destruct (c =? ord "-")%N.
  - destruct (match_unsigned s) as [[ds' r']|] eqn:E; [|discriminate].
    apply match_unsigned_suffix in E.
    intros H; injection H as _ <-. auto with suffix.
  - apply match_unsigned_suffix.
Qed.

Lemma match_frac_suffix (s : pystr) : suffix (snd (match_frac s)) s.
Proof.
  unfold match_frac. destruct s as [|c s]; [apply suffix_refl|].
  destruct (c =? ord ".")%N; [|apply suffix_refl].
  pose proof (span_digits_suffix s).
  destruct (span_digits s) as [[|d ds] r]; simpl in *;
    auto using suffix_refl with suffix.
Qed.

Lemma match_exp_suffix (s : pystr) : suffix (snd (match_exp s)) s.
Proof.
  unfold match_exp. destruct s as [|c s]; [apply suffix_refl|].
  destruct ((c =? ord "e") || (c =? ord "E"))%N; [|apply suffix_refl].
  destruct s as [|c2 s'].
  - simpl. apply suffix_refl.
  - destruct ((c2 =? ord "-") || (c2 =? ord "+"))%N.
    + pose proof (span_digits_suffix s').
      destruct (span_digits s') as [[|d ds] r]; simpl in *;
        auto using suffix_refl with suffix.
    + pose proof (span_digits_suffix (c2 :: s')).
      destruct (span_digits (c2 :: s')) as [[|d ds] r]; simpl in *;
        auto using suffix_refl with suffix.
Qed.

Lemma match_number_suffix (s r : pystr) (v : json) :
  match_number s = Some (v, r) -> suffix r s.
Proof.
  unfold match_number.
  destruct (match_integer s) as [[integer r0]|] eqn:E; [|discriminate].
  apply match_integer_suffix in E.
  pose proof (match_frac_suffix r0).
  destruct (match_frac r0) as [frac r1].
  pose proof (match_exp_suffix r1).
  destruct (match_exp r1) as [exp r2]. simpl in *.
  destruct frac, exp; intros H'; injection H' as _ <-;
    eauto using suffix_trans.
Qed.

Lemma scan_atom_suffix (s r : pystr) (v : json) :
  scan_atom s = Scanned v r -> suffix r s.
Proof.
  unfold scan_atom.
  repeat match goal with
  | |- match strip_prefix ?p s with _ => _ end = _ -> _ =>
      let E := fresh "E" in
      destruct (strip_prefix p s) eqn:E;
        [apply strip_prefix_suffix in E;
         intros H; injection H as _ <-; exact E|]
  | |- match match_number s with _ => _ end = _ -> _ =>
      let E := fresh "E" in
      destruct (match_number s) as [[? ?]|] eqn:E;
        [apply match_number_suffix in E;
         intros H; injection H as _ <-; exact E|]
  end.
  discriminate.
Qed.

Lemma scan_str_suffix (s r cs : pystr) :
  scan_str s = Scanned cs r -> suffix r s.
Proof. apply scanstring_suffix. Qed.

Lemma skip_ws_clean (s : pystr) : clean s -> clean (skip_ws s).
Proof. apply clean_suffix, skip_ws_suffix. Qed.

Lemma scan_str_clean (s r cs : pystr) :
  scan_str s = Scanned cs r -> clean s -> clean r.
Proof. intros H. apply clean_suffix. now apply scan_str_suffix in H. Qed.

Lemma scan_atom_clean (s r : pystr) (v : json) :
  scan_atom s = Scanned v r -> clean s -> clean r.
Proof. intros H. apply clean_suffix. now apply scan_atom_suffix in H. Qed.

Lemma clean_tail (c : codepoint) (s : pystr) : clean (c :: s) -> clean s.
Proof. apply Forall_inv_tail. Qed.

(** Forward chaining: every text met while scanning a clean text is
    clean. *)
Ltac clean_facts :=
  repeat match goal with
  | H : clean (?c :: ?r) |- _ =>
      lazymatch goal with
      | _ : clean r |- _ => fail
      | _ => pose proof (clean_tail c r H)
      end
  | E : skip_ws ?s = ?x, H : clean ?s |- _ =>
      lazymatch goal with
      | _ : clean x |- _ => fail
      | _ => let L := fresh "L" in
             pose proof (skip_ws_clean s H) as L; rewrite E in L
      end
  | _ : context [skip_ws ?s], H : clean ?s |- _ =>
      lazymatch goal with
      | _ : clean (skip_ws s) |- _ => fail
      | _ => pose proof (skip_ws_clean s H)
      end
  | E : scan_str ?s = Scanned _ ?r, H : clean ?s |- _ =>
      lazymatch goal with
      | _ : clean r |- _ => fail
      | _ => pose proof (scan_str_clean _ _ _ E H)
      end
  | E : scan_atom ?s = Scanned _ ?r, H : clean ?s |- _ =>
      lazymatch goal with
      | _ : clean r |- _ => fail
      | _ => pose proof (scan_atom_clean _ _ _ E H)
      end
  | IH : (forall s v r, scan_once ?f s = Scanned v r -> clean s -> clean r),
    E : scan_once ?f ?s = Scanned _ ?r, H : clean ?s |- _ =>
      lazymatch goal with
      | _ : clean r |- _ => fail
      | _ => pose proof (IH _ _ _ E H)
      end
  | IH : (forall s v r, array_items ?f s = Scanned v r -> clean s -> clean r),
    E : array_items ?f ?s = Scanned _ ?r, H : clean ?s |- _ =>
      lazymatch goal with
      | _ : clean r |- _ => fail
      | _ => pose proof (IH _ _ _ E H)
      end
  | IH : (forall s v r, object_items ?f s = Scanned v r -> clean s -> clean r),
    E : object_items ?f ?s = Scanned _ ?r, H : clean ?s |- _ =>
      lazymatch goal with
      | _ : clean r |- _ => fail
      | _ => pose proof (IH _ _ _ E H)
      end
  end.

Lemma scan_clean (f : nat) :
  (forall s v r, scan_once f s = Scanned v r -> clean s -> clean r)
  /\ (forall s v r, array_items f s = Scanned v r -> clean s -> clean r)
  /\ (forall s v r, object_items f s = Scanned v r -> clean s -> clean r).
Proof.
  induction f as [|f (IH1 & IH2 & IH3)];
    [repeat split; intros; discriminate|].
  repeat split; intros s v r H Hs.
  - destruct s as [|c s]; [discriminate|]. cbn [scan_once] in H.
    destruct (c =? DQUOTE)%N; [|destruct (c =? ord "{")%N;
      [|destruct (c =? ord "[")%N]].
    + split_scan H. injection H as _ <-. clean_facts. assumption.
    + split_scan H; injection H as _ <-; clean_facts; assumption.
    + split_scan H; injection H as _ <-; clean_facts; assumption.
    + now apply scan_atom_clean in H.
  - cbn [array_items] in H.
    split_scan H; injection H as _ <-; clean_facts; assumption.
  - cbn [object_items] in H.
    split_scan H; injection H as _ <-; clean_facts; assumption.
Qed.

Local Open Scope N_scope.

Lemma hex_val_bound (c n : N) : hex_val c = Some n -> n < 16.
Proof.
  unfold hex_val, is_digit.
  destruct ((48 <=? c) && (c <=? 57)) eqn:E1;
    [nprop; intros Heq; injection Heq as <-; lia|].
  destruct ((97 <=? c) && (c <=? 102)) eqn:E2;
    [nprop; intros Heq; injection Heq as <-; lia|].
  destruct ((65 <=? c) && (c <=? 70)) eqn:E3; [|discriminate].
  nprop. intros Heq; injection Heq as <-. lia.
Qed.

Lemma hex4_bound (s r : pystr) (n : N) : hex4 s = Some (n, r) -> n < 65536.
Proof.
  unfold hex4. destruct s as [|a [|b [|c [|d s]]]]; try discriminate.
  destruct (hex_val a) as [x|] eqn:Ea; [|discriminate].
  destruct (hex_val b) as [y|] eqn:Eb; [|discriminate].
  destruct (hex_val c) as [z|] eqn:Ec; [|discriminate].
  destruct (hex_val d) as [w|] eqn:Ed; [|discriminate].
  apply hex_val_bound in Ea, Eb, Ec, Ed.
  intros H. injection H as <- _. lia.
Qed.

Lemma unescape_bound (esc ch : N) : unescape esc = Some ch -> ch < 128.
Proof.
  unfold unescape.
  repeat match goal with
  | |- (if ?b then _ else _) = _ -> _ =>
      destruct b; [intros H; injection H as <-; reflexivity|]
  end.
  discriminate.
Qed.

Lemma join_surrogates_bound (hi lo : N) :
  is_high_surrogate hi = true -> is_low_surrogate lo = true ->
  65536 <= join_surrogates hi lo < 1114112.
Proof.
  unfold is_high_surrogate, is_low_surrogate, join_surrogates.
  intros Hh Hl. nprop.
  rewrite <- (N.mod_small (lo - 56320) 1024) by lia.
  change 1024 with (2 ^ 10). rewrite <- N.land_ones, lor_shifted.
  assert (Hm : (lo - 56320) mod 1024 < 1024) by (apply N.mod_lt; lia).
  revert Hm. generalize ((lo - 56320) mod 1024). intros m Hm. lia.
Qed.

Lemma clean_char_facts (c : N) :
  clean_char c = true ->
  c < 1114112 /\ is_high_surrogate c = false /\ is_low_surrogate c = false.
Proof.
  unfold clean_char, is_surrogate, is_high_surrogate, is_low_surrogate.
  intros H. apply andb_true_iff in H as [H1 H2].
  apply N.ltb_lt in H1. apply negb_true_iff in H2.
  split; [assumption|].
  destruct (55296 <=? c) eqn:E1, (c <=? 57343) eqn:E2; try discriminate;
    nprop; split;
    repeat first [rewrite leb_true by lia | rewrite leb_false by lia];
    reflexivity.
Qed.

Lemma above_plane_not_surrogate (c : N) :
  65536 <= c ->
  is_high_surrogate c = false /\ is_low_surrogate c = false.
Proof.
  intros H. unfold is_high_surrogate, is_low_surrogate.
  now rewrite (leb_false c 56319), (leb_false c 57343), !andb_false_r by lia.
Qed.

Lemma below_surrogates (c : N) :
  c < 128 -> is_high_surrogate c = false /\ is_low_surrogate c = false.
Proof.
  intros H. unfold is_high_surrogate, is_low_surrogate.
  now rewrite (leb_false 55296 c), (leb_false 56320 c) by lia.
Qed.

(** A character read from a clean text is a code point, and after a high
    surrogate no escape is waiting that would have been its other half. *)
Lemma scan_item_char (s r : pystr) (c : N) :
  clean s -> scan_item s = Scanned (ItemChar c) r ->
  c < 1114112
  /\ (is_high_surrogate c = true -> low_escape_ahead r = false).
Proof.
  intros Hs. unfold scan_item.
  destruct s as [|c0 s]; [discriminate|].
  destruct (c0 =? DQUOTE); [discriminate|].
  destruct (c0 =? BACKSLASH).
  - destruct s as [|esc r1]; [discriminate|].
    destruct (esc =? ord "u").
    + destruct (hex4 r1) as [[uni r2]|] eqn:E1; [|discriminate].
      pose proof (hex4_bound _ _ _ E1) as Huni.
      destruct (is_high_surrogate uni) eqn:Hhigh.
      * destruct r2 as [|b [|u r3]];
          try (intros H; injection H as <- <-; split; [lia|reflexivity]).
        destruct ((b =? BACKSLASH) && (u =? ord "u")) eqn:Econd.
        -- destruct (hex4 r3) as [[uni2 r4]|] eqn:E2; [|discriminate].
           destruct (is_low_surrogate uni2) eqn:Hlow.
           ++ intros H; injection H as <- <-.
              destruct (join_surrogates_bound uni uni2 Hhigh Hlow) as [Hj1 Hj2].
              split; [assumption|].
              destruct (above_plane_not_surrogate _ Hj1) as [Hn _]. congruence.
           ++ intros H; injection H as <- <-. split; [lia|].
              intros _. unfold low_escape_ahead. now rewrite Econd, E2.
        -- intros H; injection H as <- <-. split; [lia|].
           intros _. unfold low_escape_ahead. now rewrite Econd.
      * intros H; injection H as <- <-. split; [lia|congruence].
    + destruct (unescape esc) as [ch|] eqn:E; [|discriminate].
      intros H; injection H as <- <-.
      apply unescape_bound in E.
      destruct (below_surrogates _ E) as [Hn _]. split; [lia|congruence].
  - destruct (c0 <? 32); [discriminate|].
    intros H; injection H as <- <-.
    apply Forall_inv in Hs. apply clean_char_facts in Hs as (H1 & H2 & _).
    split; [assumption|congruence].
Qed.

(** With no such escape waiting, the next character is no low surrogate. *)
Lemma scan_item_not_low (s r : pystr) (c : N) :
  clean s -> low_escape_ahead s = false ->
  scan_item s = Scanned (ItemChar c) r -> is_low_surrogate c = false.
Proof.
  intros Hs Hahead. unfold scan_item.
  destruct s as [|c0 s]; [discriminate|].
  destruct (c0 =? DQUOTE); [discriminate|].
  destruct (c0 =? BACKSLASH) eqn:Eb.
  - destruct s as [|esc r1]; [discriminate|].
    destruct (esc =? ord "u") eqn:Eu.
    + unfold low_escape_ahead in Hahead. rewrite Eb, Eu in Hahead.
      cbn [andb] in Hahead.
      destruct (hex4 r1) as [[uni r2]|] eqn:E1; [|discriminate].
      destruct (is_high_surrogate uni) eqn:Hhigh;
        [|intros H; injection H as <- <-; exact Hahead].
      destruct r2 as [|b [|u r3]];
        try (intros H; injection H as <- <-; exact Hahead).
      destruct ((b =? BACKSLASH) && (u =? ord "u"));
        [|intros H; injection H as <- <-; exact Hahead].
      destruct (hex4 r3) as [[uni2 r4]|] eqn:E2; [|discriminate].
      destruct (is_low_surrogate uni2) eqn:Hlow;
        [|intros H; injection H as <- <-; exact Hahead].
      intros H; injection H as <- <-.
      destruct (join_surrogates_bound uni uni2 Hhigh Hlow) as [Hj1 _].
      now destruct (above_plane_not_surrogate _ Hj1).
    + destruct (unescape esc) as [ch|] eqn:E; [|discriminate].
      intros H; injection H as <- <-.
      apply unescape_bound in E. now destruct (below_surrogates _ E).
  - destruct (c0 <? 32); [discriminate|].
    intros H; injection H as <- <-.
    apply Forall_inv in Hs. now apply clean_char_facts in Hs as (_ & _ & H3).
Qed.

Lemma scanstring_stable (fuel : nat) (s r cs : pystr) :
  clean s -> scanstring fuel s = Scanned cs r -> stable_text cs = true.
Proof.
  revert s r cs. induction fuel as [|fuel IH]; intros s r cs Hs;
    [discriminate|].
  cbn [scanstring].
  destruct (scan_item s) as [[|c] r1| |] eqn:E; try discriminate.
  - intros H; injection H as <- _. reflexivity.
  - destruct (scanstring fuel r1) as [cs' r'| |] eqn:E'; try discriminate.
    intros H; injection H as <- _.
    assert (Hr1 : clean r1)
      by (apply (clean_suffix r1 s); [now apply scan_item_suffix in E|exact Hs]).
    destruct (scan_item_char s r1 c Hs E) as [Hc Hahead].
    cbn [stable_text]. rewrite (ltb_true c 1114112 Hc), (IH r1 r' cs' Hr1 E').
    rewrite andb_true_r. cbn [andb]. apply negb_true_iff.
    destruct (is_high_surrogate c); [|reflexivity].
    destruct cs' as [|c' cs'']; [reflexivity|]. cbn [andb].
    destruct fuel as [|fuel']; [discriminate E'|].
    cbn [scanstring] in E'.
    destruct (scan_item r1) as [[|c1] r2| |] eqn:E2; try discriminate.
    destruct (scanstring fuel' r2) as [cs2 r3| |]; try discriminate.
    injection E' as <- _ _.
    exact (scan_item_not_low r1 r2 c1 Hr1 (Hahead eq_refl) E2).
Qed.

Lemma scan_str_stable (s r cs : pystr) :
  clean s -> scan_str s = Scanned cs r -> stable_text cs = true.
Proof. apply scanstring_stable. Qed.

Local Open Scope nat_scope.

Lemma dict_set_forallb (p : pystr * json -> bool) (d : dict) (k : pystr)
    (v : json) :
  forallb p d = true -> p (k, v) = true -> forallb p (dict_set d k v) = true.
Proof.
  intros Hd Hkv. induction d as [|[k0 v0] d IH]; simpl.
  - now rewrite Hkv.
  - simpl in Hd. apply andb_true_iff in Hd as [H0 Hd].
    destruct (pystr_eqb k0 k) eqn:E; simpl.
    + apply pystr_eqb_eq in E. subst k0. now rewrite Hkv, Hd.
    + now rewrite H0, IH.
Qed.

(** [dict(pairs)] of well-shaped pairs is a well-shaped mapping. *)
Lemma dict_of_pairs_shapely (pairs : list (pystr * json)) :
  forallb shapely_pair pairs = true ->
  shapely (JDict (dict_of_pairs pairs)) = true.
Proof.
  intros Hp. unfold dict_of_pairs.
  assert (G : forall acc,
             forallb shapely_pair acc = true -> NoDup (dict_keys acc) ->
             forallb shapely_pair pairs = true ->
             let d := fold_left (fun a kv => dict_set a (fst kv) (snd kv))
                        pairs acc in
             forallb shapely_pair d = true /\ NoDup (dict_keys d)).
  { clear Hp. induction pairs as [|[k x] pairs IH]; intros acc Hacc Hnd Hp.
    - now split.
    - cbn [forallb] in Hp. apply andb_true_iff in Hp as [Hkx Hp].
      cbn [fold_left fst snd]. apply IH; [|now apply dict_set_keys_NoDup|exact Hp].
      now apply dict_set_forallb. }
  destruct (G [] eq_refl (NoDup_nil _) Hp) as [Hall Hnd].
  cbn [shapely]. apply andb_true_iff. split; [exact Hall|].
  now apply distinct_NoDup.
Qed.

Lemma match_number_shapely (s r : pystr) (v : json) :
  match_number s = Some (v, r) -> shapely v = true.
Proof.
  unfold match_number.
  destruct (match_integer s) as [[integer r0]|]; [|discriminate].
  destruct (match_frac r0) as [frac r1].
  destruct (match_exp r1) as [exp r2].
  destruct frac, exp; intros H; injection H as <- _; reflexivity.
Qed.

Lemma scan_atom_shapely (s r : pystr) (v : json) :
  scan_atom s = Scanned v r -> shapely v = true.
Proof.
  unfold scan_atom.
  repeat match goal with
  | |- match strip_prefix ?p s with _ => _ end = _ -> _ =>
      destruct (strip_prefix p s);
        [intros H; injection H as <- _; reflexivity|]
  | |- match match_number s with _ => _ end = _ -> _ =>
      let E := fresh "E" in
      destruct (match_number s) as [[? ?]|] eqn:E;
        [apply match_number_shapely in E;
         intros H; injection H as <- _; exact E|]
  end.
  discriminate.
Qed.

Ltac shapely_facts :=
  repeat match goal with
  | E : scan_str ?s = Scanned ?k _, H : clean ?s |- _ =>
      lazymatch goal with
      | _ : stable_text k = true |- _ => fail
      | _ => pose proof (scan_str_stable _ _ _ H E)
      end
  | IH : (forall s v r, scan_once ?f s = Scanned v r -> clean s -> shapely v = true),
    E : scan_once ?f ?s = Scanned ?v _, H : clean ?s |- _ =>
      lazymatch goal with
      | _ : shapely v = true |- _ => fail
      | _ => pose proof (IH _ _ _ E H)
      end
  | IH : (forall s v r, array_items ?f s = Scanned v r -> clean s ->
                        forallb shapely v = true),
    E : array_items ?f ?s = Scanned ?v _, H : clean ?s |- _ =>
      lazymatch goal with
      | _ : forallb shapely v = true |- _ => fail
      | _ => pose proof (IH _ _ _ E H)
      end
  | IH : (forall s v r, object_items ?f s = Scanned v r -> clean s ->
                        forallb shapely_pair v = true),
    E : object_items ?f ?s = Scanned ?v _, H : clean ?s |- _ =>
      lazymatch goal with
      | _ : forallb shapely_pair v = true |- _ => fail
      | _ => pose proof (IH _ _ _ E H)
      end
  end.

Lemma scan_shapely (f : nat) :
  (forall s v r, scan_once f s = Scanned v r -> clean s -> shapely v = true)
  /\ (forall s v r, array_items f s = Scanned v r -> clean s ->
                    forallb shapely v = true)
  /\ (forall s v r, object_items f s = Scanned v r -> clean s ->
                    forallb shapely_pair v = true).
Proof.
  induction f as [|f (IH1 & IH2 & IH3)];
    [repeat split; intros; discriminate|].
  destruct (scan_clean f) as (C1 & C2 & C3).
  repeat split; intros s v r H Hs.
  - destruct s as [|c s]; [discriminate|]. cbn [scan_once] in H.
    destruct (c =? DQUOTE)%N; [|destruct (c =? ord "{")%N;
      [|destruct (c =? ord "[")%N]].
    + split_scan H. injection H as <- _. clean_facts. shapely_facts.
      assumption.
    + split_scan H; injection H as <- _; clean_facts; shapely_facts;
        [now apply dict_of_pairs_shapely|reflexivity].
    + split_scan H; injection H as <- _; clean_facts; shapely_facts;
        [reflexivity|assumption].
    + now apply scan_atom_shapely in H.
  - cbn [array_items] in H.
    split_scan H; injection H as <- _; clean_facts; shapely_facts;
      cbn [forallb];
      repeat match goal with Hx : _ = true |- _ => rewrite Hx end;
      reflexivity.
  - cbn [object_items] in H.
    split_scan H; injection H as <- _; clean_facts; shapely_facts;
      cbn [forallb shapely_pair];
      repeat match goal with Hx : _ = true |- _ => rewrite Hx end;
      reflexivity.
Qed.

(** What [json.loads] makes of a clean text is well shaped. *)
Theorem json_loads_shapely (s : pystr) (v : json) :
  clean s -> json_loads s = Ok v -> shapely v = true.
Proof.
  intros Hs. unfold json_loads.
  destruct (starts_with_bom s); [discriminate|].
  destruct (scan_once _ (skip_ws s)) as [v' r| |] eqn:E; try discriminate.
  destruct (skip_ws r); [|discriminate].
  intros H; injection H as <-.
  eapply scan_shapely; [exact E|now apply skip_ws_clean].
Qed.


Lemma encode_utf8_clean (s : pystr) (bytes : list Byte.byte) :
  encode_utf8 s = Ok bytes -> clean s.
Proof.
  unfold encode_utf8. revert bytes.
  induction s as [|c s IH]; intros bytes H; [constructor|].
  cbn [utf8_bytes] in H.
  destruct (utf8_char c) as [b|] eqn:Ec; [|discriminate].
  destruct (utf8_bytes s) as [bs|] eqn:Es; [|discriminate].
  constructor; [|now apply (IH bs); rewrite ?Es].
  unfold utf8_char in Ec. unfold clean_char, is_surrogate in *.
  destruct (c <? 128)%N eqn:E1.
  - nprop. rewrite (ltb_true c 1114112), (leb_false 55296 c) by lia.
    reflexivity.
  - destruct (c <? 2048)%N eqn:E2.
    + nprop. rewrite (ltb_true c 1114112), (leb_false 55296 c) by lia.
      reflexivity.
    + destruct (c <? 65536)%N eqn:E3.
      * destruct ((55296 <=? c) && (c <=? 57343))%N; [discriminate|].
        nprop. now rewrite (ltb_true c 1114112) by lia.
      * destruct (c <? 1114112)%N eqn:E4; [|discriminate].
        nprop. now rewrite (leb_false c 57343), andb_false_r by lia.
Qed.


(** ** Worked instances *)

Lemma example_run :
  exists w',
    execute (PyLLM example_llm) (PyValue (JStr example_prompt)) example_world
    = (Ok example_result, w').
Proof. eexists. vm_compute. reflexivity. Qed.







Lemma execute_duration_witness :
  exists res w',
    execute (PyLLM example_llm) (PyValue (JStr example_prompt)) example_world
    = (Ok res, w')
    /\ dict_get KEY_DURATION (metadata res) = Some (JInt 3%Z)
    /\ 3%Z = Qceiling (float_value (elapsed example_world))
    /\ (Qfloor (float_value (elapsed example_world)) <= 3)%Z
    /\ (0 <= 3)%Z.
Proof.
  destruct example_run as [w' E]. exists example_result, w'.
  split; [exact E|].
  destruct (execute_duration example_llm example_prompt example_world w'
              example_result E) as (d & Hd & Hv & Hfloor & Hpos).
  assert (d = 3%Z) as -> by (rewrite Hv; vm_compute; reflexivity).
  split; [exact Hd|]. split; [exact Hv|]. split; [exact Hfloor|].
  apply Hpos; vm_compute; reflexivity.
Defined.

Lemma execute_byte_count_witness :
  exists res w' text bytes,
    execute (PyLLM example_llm) (PyValue (JStr example_prompt)) example_world
    = (Ok res, w')
    /\ llm_structured_chat example_llm (conversation example_prompt)
       = ChatResponse (Some text)
    /\ encode_utf8 text = Ok bytes
    /\ dict_get KEY_RESPONSE_BYTE_COUNT (metadata res)
       = Some (JInt (Z.of_nat (length bytes)))
    /\ json_loads text = Ok (response res).
Proof.
  destruct example_run as [w' E]. exists example_result, w'.
  destruct (execute_byte_count example_llm example_prompt example_world w'
              example_result E) as (text & bytes & H).
  exists text, bytes. split; [exact E|exact H].
Defined.

Lemma to_dict_all_flags_witness :
  exists d',
    to_dict clashing_result true true true = Ok (JDict d')
    /\ dict_get KEY_METADATA d' = Some (JDict (metadata clashing_result))
    /\ dict_get KEY_SYSTEM_PROMPT d'
       = Some (json_of_optstr (system_prompt clashing_result))
    /\ dict_get KEY_USER_PROMPT d' = Some (JStr (user_prompt clashing_result))
    /\ dict_get (py "draft_markdown") d' = Some (JStr (py "# A"))
    /\ length d' = 4.
Proof.
  destruct (to_dict_all_flags clashing_result _ eq_refl)
    as (d' & Hd & Hm & Hs & Hu & Hother & Hkeys & Hnd).
  exists d'. split; [exact Hd|]. split; [exact Hm|]. split; [exact Hs|].
  split; [exact Hu|]. split.
  - rewrite Hother by (vm_compute; discriminate). reflexivity.
  - vm_compute in Hd. injection Hd as <-. reflexivity.
Defined.

Lemma to_dict_no_flags_witness :
  exists d',
    to_dict example_result false false false = Ok (JDict d')
    /\ dict_keys d' = [py "draft_markdown"; py "final_markdown"]
    /\ (forall k, dict_get k d'
                  = dict_get k [(py "draft_markdown", JStr (py "# A" ++ [LF]));
                                (py "final_markdown", JStr (py "# A" ++ [LF]))]).
Proof. exact (to_dict_no_flags example_result _ eq_refl). Defined.

Lemma execute_rejects_arguments_witness :
  execute (PyValue JNull) (PyValue (JStr example_prompt)) example_world
  = (Raise (ValueError "Invalid LLM instance." None), example_world)
  /\ execute (PyLLM example_llm) (PyValue (JInt 7%Z)) example_world
     = (Raise (ValueError "Invalid query." None), example_world).
Proof.
  split.
  - apply (proj1 (execute_rejects_arguments (PyValue JNull)
                    (PyValue (JStr example_prompt)) example_world)).
    reflexivity.
  - apply (proj2 (execute_rejects_arguments (PyLLM example_llm)
                    (PyValue (JInt 7%Z)) example_world)).
    + discriminate.
    + reflexivity.
Defined.

Lemma execute_conversation_witness :
  exists res,
    fst (execute (PyLLM example_llm) (PyValue (JStr example_prompt))
           example_world) = Ok res
    /\ system_prompt res = Some (py_strip SYSTEM_PROMPT)
    /\ user_prompt res = example_prompt.
Proof.
  destruct example_run as [w' E]. exists example_result.
  assert (H : fst (execute (PyLLM example_llm) (PyValue (JStr example_prompt))
                     example_world) = Ok example_result)
    by (rewrite E; reflexivity).
  split; [exact H|].
  exact (proj2 (execute_conversation example_llm example_prompt example_world)
           example_result H).
Defined.

Lemma execute_metadata_witness :
  exists res w',
    execute (PyLLM example_llm) (PyValue (JStr example_prompt)) example_world
    = (Ok res, w')
    /\ dict_get KEY_LLM_CLASSNAME (metadata res) = Some (JStr (py "StubLLM"))
    /\ dict_get KEY_DURATION (metadata res) = Some (JInt 3%Z)
    /\ dict_get KEY_RESPONSE_BYTE_COUNT (metadata res) = Some (JInt 54%Z)
    /\ dict_get (py "model_name") (metadata res)
       = Some (JStr (py "stub-model")).
Proof.
  destruct example_run as [w' E]. exists example_result, w'.
  destruct (execute_metadata example_llm example_prompt example_world w'
              example_result E)
    as (d & bytes & Hd & Hclass & Hdur & Hcount & Hother).
  split; [exact E|]. split; [exact Hclass|].
  split; [vm_compute; reflexivity|]. split; [vm_compute; reflexivity|].
  rewrite Hother by (vm_compute; discriminate). reflexivity.
Defined.

(* ================================================================== *)
(** * Part III. Further properties of [execute], [to_dict] and [save_raw] *)
(* ================================================================== *)

(** ** [execute]: what it logs, what it reads, how it fails *)

Lemma execute_files (llm prompt : pyobj) (w : world) :
  w_files (snd (execute llm prompt w)) = w_files w
  /\ w_openable (snd (execute llm prompt w)) = w_openable w.
Proof.
  destruct llm as [llm|v]; [|split; reflexivity].
  destruct prompt as [p|[| | | |prompt| |]]; try (split; reflexivity).
  run_execute.
  destruct (llm_structured_chat llm _) as [[text|]|e]; run_execute;
    [| |split; reflexivity].
  - destruct (py_ceil _) as [d|e]; run_execute; [|split; reflexivity].
    destruct (encode_utf8 text) as [bytes|e]; run_execute;
      [|split; reflexivity].
    destruct (json_loads text) as [v|[]]; run_execute; split; reflexivity.
  - destruct (py_ceil _) as [d|e]; run_execute; split; reflexivity.
Qed.

(** X1.  An exception raised by the model client passes through [execute]
    unchanged.  By then the two [DEBUG] records are written, the
    conversation is handed over and the clock is read once; nothing is
    logged after the failure and no file is touched. *)
Theorem execute_client_error_propagates (llm : LLM) (prompt : pystr)
    (w : world) (e : exn) :
  llm_structured_chat llm (conversation prompt) = ChatRaises e ->
  let outcome := execute (PyLLM llm) (PyValue (JStr prompt)) w in
  fst outcome = Raise e
  /\ w_events (snd outcome) = w_events w ++ opening_events prompt
  /\ w_clock_reads (snd outcome) = S (w_clock_reads w)
  /\ w_files (snd outcome) = w_files w.
Proof.
  unfold conversation, opening_events. intros Hchat. cbv zeta.
  run_execute. rewrite Hchat. run_execute.
  cbn [fst snd w_events w_clock_reads w_files].
  rewrite <- !app_assoc. repeat split; reflexivity.
Qed.

Lemma execute_client_error_propagates_witness :
  let outcome :=
    execute (PyLLM (stub_llm (ChatRaises (ClientError (py "timeout")))))
      (PyValue (JStr example_prompt)) example_world in
  fst outcome = Raise (ClientError (py "timeout"))
  /\ w_events (snd outcome) = opening_events example_prompt
  /\ w_clock_reads (snd outcome) = 1
  /\ w_files (snd outcome) = w_files example_world.
Proof.
  apply (execute_client_error_propagates
           (stub_llm (ChatRaises (ClientError (py "timeout"))))
           example_prompt example_world (ClientError (py "timeout"))).
  reflexivity.
Defined.

(** X2.  A reply whose [message.content] is [None] makes [execute] raise
    [AttributeError] at the byte count: the clock has been read twice, and
    neither the [INFO] record nor any later one is written. *)
Theorem execute_missing_content (llm : LLM) (prompt : pystr) (w : world)
    (d : Z) :
  llm_structured_chat llm (conversation prompt) = ChatResponse None ->
  py_ceil (elapsed w) = Ok d ->
  let outcome := execute (PyLLM llm) (PyValue (JStr prompt)) w in
  fst outcome = Raise AttributeError
  /\ w_events (snd outcome) = w_events w ++ opening_events prompt
  /\ w_clock_reads (snd outcome) = S (S (w_clock_reads w)).
Proof.
  unfold elapsed, end_reading, start_reading, conversation, opening_events.
  intros Hchat Hceil. cbv zeta.
  run_execute. rewrite Hchat. run_execute. rewrite Hceil.
  cbn [fst snd w_events w_clock_reads].
  rewrite <- !app_assoc. repeat split; reflexivity.
Qed.

Lemma execute_missing_content_witness :
  let outcome :=
    execute (PyLLM (stub_llm (ChatResponse None)))
      (PyValue (JStr example_prompt)) example_world in
  fst outcome = Raise AttributeError
  /\ w_events (snd outcome) = opening_events example_prompt
  /\ w_clock_reads (snd outcome) = 2.
Proof.
  apply (execute_missing_content (stub_llm (ChatResponse None))
           example_prompt example_world 3%Z).
  - reflexivity.
  - vm_compute. reflexivity.
Defined.

Lemma utf8_bytes_surrogate (text : pystr) (c : codepoint) :
  In c text -> is_surrogate c = true -> utf8_bytes text = None.
Proof.
  intros Hin Hc. induction text as [|c0 text IH]; [destruct Hin|].
  cbn [utf8_bytes]. destruct Hin as [->|Hin].
  - unfold utf8_char. rewrite Hc. unfold is_surrogate in Hc.
    apply andb_true_iff in Hc as [H1 H2].
    apply N.leb_le in H1. apply N.leb_le in H2.
    rewrite (ltb_false c 128), (ltb_false c 2048), (ltb_true c 65536) by lia.
    reflexivity.
  - rewrite (IH Hin). now destruct (utf8_char c0).
Qed.

(** X3.  A reply text that holds a surrogate code point anywhere makes
    [execute] raise [UnicodeEncodeError] at the byte count, whether or not
    the text is valid JSON; the [INFO] record is not written. *)
Theorem execute_unencodable_reply (llm : LLM) (prompt : pystr) (w : world)
    (text : pystr) (c : codepoint) (d : Z) :
  llm_structured_chat llm (conversation prompt) = ChatResponse (Some text) ->
  py_ceil (elapsed w) = Ok d ->
  In c text -> is_surrogate c = true ->
  let outcome := execute (PyLLM llm) (PyValue (JStr prompt)) w in
  fst outcome = Raise UnicodeEncodeError
  /\ w_events (snd outcome) = w_events w ++ opening_events prompt.
Proof.
  unfold elapsed, end_reading, start_reading, conversation, opening_events.
  intros Hchat Hceil Hin Hc. cbv zeta.
  run_execute. rewrite Hchat. run_execute. rewrite Hceil.
  unfold encode_utf8. rewrite (utf8_bytes_surrogate text c Hin Hc).
  cbn [fst snd w_events].
  rewrite <- !app_assoc. split; reflexivity.
Qed.

Lemma execute_unencodable_reply_witness :
  json_loads [DQUOTE; 55296%N; DQUOTE] = Ok (JStr [55296%N])
  /\ let outcome :=
       execute (PyLLM (stub_llm (ChatResponse (Some [DQUOTE; 55296%N; DQUOTE]))))
         (PyValue (JStr example_prompt)) example_world in
     fst outcome = Raise UnicodeEncodeError
     /\ w_events (snd outcome) = opening_events example_prompt.
Proof.
  split; [vm_compute; reflexivity|].
  apply (execute_unencodable_reply
           (stub_llm (ChatResponse (Some [DQUOTE; 55296%N; DQUOTE])))
           example_prompt example_world [DQUOTE; 55296%N; DQUOTE] 55296%N 3%Z).
  - reflexivity.
  - vm_compute. reflexivity.
  - right. left. reflexivity.
  - reflexivity.
Defined.

(** X4.  Whatever its arguments and however it ends, [execute] creates,
    changes and removes no file. *)
Theorem execute_leaves_files_alone (llm prompt : pyobj) (w : world)
    (path : pystr) :
  let w' := snd (execute llm prompt w) in
  w_files w' path = w_files w path
  /\ w_openable w' path = w_openable w path
  /\ fst (read_text path w') = fst (read_text path w).
Proof.
  cbv zeta. destruct (execute_files llm prompt w) as [Hf Ho].
  unfold read_text. rewrite Hf, Ho.
  repeat split. now destruct (w_files w path).
Qed.

(** X5.  A call that returns has written, in this order: the two [DEBUG]
    records, the conversation, the [INFO] record, which reports the very
    duration and byte count stored in the metadata, and the closing
    [DEBUG] record; and it has read the clock twice. *)
Theorem execute_success_trace (llm : LLM) (prompt : pystr) (w w' : world)
    (res : CleanupPitch) :
  execute (PyLLM llm) (PyValue (JStr prompt)) w = (Ok res, w') ->
  exists duration byte_count : Z,
    dict_get KEY_DURATION (metadata res) = Some (JInt duration)
    /\ dict_get KEY_RESPONSE_BYTE_COUNT (metadata res)
       = Some (JInt byte_count)
    /\ w_events w'
       = w_events w ++ opening_events prompt
         ++ [ completed_event duration byte_count;
              EvLog DEBUG (py "CleanupPitch instance created successfully.") ]
    /\ w_clock_reads w' = S (S (w_clock_reads w)).
Proof.
  intros E.
  destruct (execute_ok_inv llm prompt w w' res E)
    as (text & bytes & d & v & Hchat & Hceil & Henc & Hloads & Hres & _).
  exists d, (Z.of_nat (length bytes)).
  rewrite Hres. cbn [metadata].
  split; [apply augmented_lookup|]. split; [apply augmented_lookup|].
  revert E Hchat Hceil.
  unfold elapsed, end_reading, start_reading, conversation, opening_events,
    completed_event.
  intros E Hchat Hceil. revert E.
  run_execute. rewrite Hchat. run_execute.
  rewrite Hceil, Henc, Hloads. run_execute.
  intros H. injection H as _ <-. cbn [w_events w_clock_reads].
  rewrite <- !app_assoc. split; reflexivity.
Qed.

Lemma execute_success_trace_witness :
  exists w',
    execute (PyLLM example_llm) (PyValue (JStr example_prompt)) example_world
    = (Ok example_result, w')
    /\ w_events w'
       = opening_events example_prompt
         ++ [ completed_event 3 54;
              EvLog DEBUG (py "CleanupPitch instance created successfully.") ]
    /\ w_clock_reads w' = 2.
Proof.
  destruct example_run as [w' E]. exists w'. split; [exact E|].
  destruct (execute_success_trace example_llm example_prompt example_world w'
              example_result E) as (d & b & Hd & Hb & Hev & Hclk).
  vm_compute in Hd. injection Hd as <-.
  vm_compute in Hb. injection Hb as <-.
  split; [exact Hev|exact Hclk].
Defined.



(** ** [execute]: the byte count *)

Lemma utf8_char_length (c : codepoint) (b : list Byte.byte) :
  utf8_char c = Some b ->
  1 <= length b <= 4 /\ (length b = 1 <-> (c < 128)%N).
Proof.
  unfold utf8_char.
  destruct (c <? 128)%N eqn:E1.
  - intros H. injection H as <-. apply N.ltb_lt in E1. simpl. lia.
  - apply N.ltb_ge in E1.
    destruct (c <? 2048)%N; [intros H; injection H as <-; simpl; lia|].
    destruct (c <? 65536)%N.
    + destruct (is_surrogate c); [discriminate|].
      intros H. injection H as <-. simpl. lia.
    + destruct (c <? 1114112)%N; [|discriminate].
      intros H. injection H as <-. simpl. lia.
Qed.

Lemma utf8_bytes_length (s : pystr) (bs : list Byte.byte) :
  utf8_bytes s = Some bs ->
  length s <= length bs <= 4 * length s
  /\ (length bs = length s <-> is_ascii_text s).
Proof.
  revert bs. induction s as [|c s IH]; intros bs H.
  - injection H as <-. simpl. split; [lia|]. split; [constructor|reflexivity].
  - cbn [utf8_bytes] in H.
    destruct (utf8_char c) as [b|] eqn:Ec; [|discriminate].
    destruct (utf8_bytes s) as [bs'|] eqn:Es; [|discriminate].
    injection H as <-.
    destruct (utf8_char_length c b Ec) as [Hb Hone].
    destruct (IH bs' eq_refl) as [Hlen Hascii].
    rewrite length_app. cbn [length]. split; [lia|].
    unfold is_ascii_text in *. split.
    + intros Heq. constructor; [apply Hone; lia|apply Hascii; lia].
    + intros Hall. inversion Hall as [|? ? Hc Hs]. subst.
      apply Hone in Hc. apply Hascii in Hs. lia.
Qed.

Lemma utf8_bytes_ascii (s : pystr) :
  is_ascii_text s -> exists bs, utf8_bytes s = Some bs.
Proof.
  induction 1 as [|c s Hc _ [bs IH]]; [now exists []|].
  cbn [utf8_bytes]. unfold utf8_char.
  rewrite (ltb_true c 128) by exact Hc. rewrite IH. eexists. reflexivity.
Qed.

(** X7.  In a returned result the byte count is at least the number of
    code points of the reply text and at most four times that number, and
    it equals that number exactly when the reply is plain ASCII. *)
Theorem execute_byte_count_bounds (llm : LLM) (prompt : pystr) (w w' : world)
    (res : CleanupPitch) :
  execute (PyLLM llm) (PyValue (JStr prompt)) w = (Ok res, w') ->
  exists (text : pystr) (count : Z),
    llm_structured_chat llm (conversation prompt) = ChatResponse (Some text)
    /\ dict_get KEY_RESPONSE_BYTE_COUNT (metadata res) = Some (JInt count)
    /\ (Z.of_nat (length text) <= count <= 4 * Z.of_nat (length text))%Z
    /\ (count = Z.of_nat (length text) <-> is_ascii_text text).
Proof.
  intros E.
  apply execute_ok_inv in E
    as (text & bytes & d & v & Hchat & _ & Henc & _ & -> & _).
  exists text, (Z.of_nat (length bytes)).
  split; [exact Hchat|]. split; [apply augmented_lookup|].
  unfold encode_utf8 in Henc.
  destruct (utf8_bytes text) as [bs|] eqn:Eb; [|discriminate].
  injection Henc as <-.
  destruct (utf8_bytes_length text bs Eb) as [Hlen Hascii].
  split; [lia|]. rewrite <- Hascii. lia.
Qed.

Lemma execute_byte_count_bounds_witness :
  exists w',
    execute (PyLLM example_llm) (PyValue (JStr example_prompt)) example_world
    = (Ok example_result, w')
    /\ dict_get KEY_RESPONSE_BYTE_COUNT (metadata example_result)
       = Some (JInt 54)
    /\ length example_reply = 54
    /\ is_ascii_text example_reply.
Proof.
  destruct example_run as [w' E]. exists w'. split; [exact E|].
  destruct (execute_byte_count_bounds example_llm example_prompt example_world
              w' example_result E)
    as (text & count & Hchat & Hcount & _ & Hascii).
  injection Hchat as <-.
  vm_compute in Hcount. injection Hcount as <-.
  split; [reflexivity|]. split; [reflexivity|].
  apply Hascii. reflexivity.
Defined.

(** ** [execute]: replies the decoder turns down *)

Lemma is_ws_ascii (s : pystr) : forallb is_ws s = true -> is_ascii_text s.
Proof.
  induction s as [|c s IH]; intros H; [constructor|].
  cbn [forallb] in H. apply andb_true_iff in H as [Hc Hs].
  constructor; [|now apply IH].
  unfold is_ws in Hc.
  repeat (apply orb_true_iff in Hc as [Hc|Hc]); apply N.eqb_eq in Hc; lia.
Qed.

Lemma skip_ws_blank (s : pystr) : forallb is_ws s = true -> skip_ws s = [].
Proof.
  induction s as [|c s IH]; intros H; [reflexivity|].
  cbn [forallb] in H. apply andb_true_iff in H as [Hc Hs].
  cbn [skip_ws]. rewrite Hc. now apply IH.
Qed.

Lemma starts_with_bom_ws (s : pystr) :
  forallb is_ws s = true -> starts_with_bom s = false.
Proof.
  destruct s as [|c s]; [reflexivity|]. cbn [forallb starts_with_bom].
  intros H. apply andb_true_iff in H as [Hc _].
  destruct (c =? 65279)%N eqn:E; [|reflexivity].
  apply N.eqb_eq in E. subst c. discriminate Hc.
Qed.

Lemma json_loads_blank (s : pystr) :
  forallb is_ws s = true -> json_loads s = Raise (JSONDecodeError ExpectingValue).
Proof.
  intros H. unfold json_loads.
  rewrite (starts_with_bom_ws s H), (skip_ws_blank s H). reflexivity.
Qed.

(** What [execute] does with a reply text the decoder rejects, once the
    duration and the byte count are there. *)
Lemma execute_rejected (llm : LLM) (prompt : pystr) (w : world)
    (text : pystr) (bytes : list Byte.byte) (d : Z) (e : json_error) :
  llm_structured_chat llm (conversation prompt) = ChatResponse (Some text) ->
  py_ceil (elapsed w) = Ok d ->
  encode_utf8 text = Ok bytes ->
  json_loads text = Raise (JSONDecodeError e) ->
  fst (execute (PyLLM llm) (PyValue (JStr prompt)) w)
  = Raise (ValueError "Invalid JSON response from LLM."
             (Some (JSONDecodeError e))).
Proof.
  unfold elapsed, end_reading, start_reading, conversation.
  intros Hchat Hceil Henc Hloads.
  run_execute. rewrite Hchat. run_execute.
  rewrite Hceil, Henc, Hloads. reflexivity.
Qed.

(** X8.  An empty reply, or one made of spaces, tabs and line ends only,
    makes [execute] raise [ValueError("Invalid JSON response from LLM.")]
    caused by the decoder's "Expecting value". *)
Theorem execute_blank_reply (llm : LLM) (prompt : pystr) (w : world)
    (text : pystr) (d : Z) :
  llm_structured_chat llm (conversation prompt) = ChatResponse (Some text) ->
  py_ceil (elapsed w) = Ok d ->
  forallb is_ws text = true ->
  fst (execute (PyLLM llm) (PyValue (JStr prompt)) w)
  = Raise (ValueError "Invalid JSON response from LLM."
             (Some (JSONDecodeError ExpectingValue))).
Proof.
  intros Hchat Hceil Hws.
  destruct (utf8_bytes_ascii text (is_ws_ascii text Hws)) as [bs Hbs].
  apply (execute_rejected llm prompt w text bs d); try assumption.
  - unfold encode_utf8. now rewrite Hbs.
  - now apply json_loads_blank.
Qed.

Lemma execute_blank_reply_witness :
  fst (execute (PyLLM (stub_llm (ChatResponse (Some []))))
         (PyValue (JStr example_prompt)) example_world)
  = Raise (ValueError "Invalid JSON response from LLM."
             (Some (JSONDecodeError ExpectingValue)))
  /\ fst (execute (PyLLM (stub_llm (ChatResponse (Some [SPACE; LF]))))
            (PyValue (JStr example_prompt)) example_world)
     = Raise (ValueError "Invalid JSON response from LLM."
                (Some (JSONDecodeError ExpectingValue))).
Proof.
  split.
  - apply (execute_blank_reply (stub_llm (ChatResponse (Some [])))
             example_prompt example_world [] 3%Z);
      [reflexivity|vm_compute; reflexivity|reflexivity].
  - apply (execute_blank_reply (stub_llm (ChatResponse (Some [SPACE; LF])))
             example_prompt example_world [SPACE; LF] 3%Z);
      [reflexivity|vm_compute; reflexivity|reflexivity].
Defined.






(** ** The decoder and what follows a value

    What the scanner makes of a text it makes of the same text with more
    characters after it, as long as these cannot continue a number. *)










































(** ** [to_dict]: any choice of flags, the order of the keys, a response
    that is no mapping *)

Lemma to_dict_flags_eq (self : CleanupPitch) (d : dict) (m s u : bool) :
  response self = JDict d ->
  to_dict self m s u =
    Ok (JDict
          (dict_set_if u
             (dict_set_if s
                (dict_set_if m d KEY_METADATA (JDict (metadata self)))
                KEY_SYSTEM_PROMPT (json_of_optstr (system_prompt self)))
             KEY_USER_PROMPT (JStr (user_prompt self)))).
Proof.
  intros H. unfold to_dict. rewrite H.
  destruct m, s, u; reflexivity.
Qed.

Lemma dict_get_set_if (d : dict) (flag : bool) (k k' : pystr) (v : json) :
  dict_get k' (dict_set_if flag d k v)
  = if flag && pystr_eqb k k' then Some v else dict_get k' d.
Proof.
  destruct flag; [|reflexivity]. cbn [andb dict_set_if].
  destruct (pystr_eqb k k') eqn:E.
  - apply pystr_eqb_eq in E. subst k'. apply dict_get_set_same.
  - apply pystr_eqb_neq in E. now apply dict_get_set_other.
Qed.

(** X12.  For a result whose response is a mapping and any choice of the
    three flags, [to_dict] returns a mapping in which each of [metadata],
    [system_prompt] and [user_prompt] holds the result's own value when its
    flag is set and whatever the response holds under that key (if
    anything) when it is cleared; every other key is the response's. *)
Theorem to_dict_flags (self : CleanupPitch) (d : dict)
    (include_metadata include_system_prompt include_user_prompt : bool) :
  response self = JDict d ->
  exists d',
    to_dict self include_metadata include_system_prompt include_user_prompt
    = Ok (JDict d')
    /\ dict_get KEY_METADATA d'
       = (if include_metadata then Some (JDict (metadata self))
          else dict_get KEY_METADATA d)
    /\ dict_get KEY_SYSTEM_PROMPT d'
       = (if include_system_prompt
          then Some (json_of_optstr (system_prompt self))
          else dict_get KEY_SYSTEM_PROMPT d)
    /\ dict_get KEY_USER_PROMPT d'
       = (if include_user_prompt then Some (JStr (user_prompt self))
          else dict_get KEY_USER_PROMPT d)
    /\ (forall k, k <> KEY_METADATA -> k <> KEY_SYSTEM_PROMPT ->
                  k <> KEY_USER_PROMPT -> dict_get k d' = dict_get k d).
Proof.
  intros H. eexists. split; [apply (to_dict_flags_eq self d _ _ _ H)|].
  repeat split.
  - rewrite !dict_get_set_if.
    now destruct include_user_prompt, include_system_prompt, include_metadata.
  - rewrite !dict_get_set_if.
    now destruct include_user_prompt, include_system_prompt, include_metadata.
  - rewrite !dict_get_set_if.
    now destruct include_user_prompt, include_system_prompt, include_metadata.
  - intros k H1 H2 H3. rewrite !dict_get_set_if.
    apply not_eq_sym, pystr_eqb_neq in H1, H2, H3.
    rewrite H1, H2, H3, !andb_false_r. reflexivity.
Qed.

Lemma to_dict_flags_witness :
  exists d',
    to_dict clashing_result false true false = Ok (JDict d')
    /\ dict_get KEY_METADATA d' = Some (JStr (py "from the model"))
    /\ dict_get KEY_SYSTEM_PROMPT d' = Some (JStr (py_strip SYSTEM_PROMPT))
    /\ dict_get KEY_USER_PROMPT d' = None
    /\ dict_get (py "draft_markdown") d' = Some (JStr (py "# A")).
Proof.
  destruct (to_dict_flags clashing_result
              [(py "metadata", JStr (py "from the model"));
               (py "draft_markdown", JStr (py "# A"))]
              false true false eq_refl)
    as (d' & Hd & Hm & Hs & Hu & Hk).
  exists d'. split; [exact Hd|]. split; [exact Hm|]. split; [exact Hs|].
  split; [exact Hu|].
  rewrite Hk; [reflexivity|discriminate|discriminate|discriminate].
Defined.

Lemma dict_keys_set_if (d0 d : dict) (flag : bool) (k : pystr) (v : json) :
  (exists added, dict_keys d = dict_keys d0 ++ added) ->
  exists added, dict_keys (dict_set_if flag d k v) = dict_keys d0 ++ added.
Proof.
  intros [added H]. destruct flag; [|now exists added]. cbn [dict_set_if].
  assert (Hset : exists more, dict_keys (dict_set d k v) = dict_keys d ++ more).
  { clear. induction d as [|[k0 v0] d [more IH]]; [now exists [k]|].
    cbn [dict_set]. destruct (pystr_eqb k0 k).
    - exists []. now rewrite app_nil_r.
    - exists more. unfold dict_keys in *. cbn [map fst]. now rewrite IH. }
  destruct Hset as [more Hset]. exists (added ++ more).
  now rewrite Hset, H, app_assoc.
Qed.

Lemma dict_set_if_absent (d : dict) (flag : bool) (k : pystr) (v : json) :
  ~ In k (dict_keys d) ->
  dict_set_if flag d k v = d ++ (if flag then [(k, v)] else []).
Proof.
  intros H. destruct flag; cbn [dict_set_if].
  - now apply dict_set_absent.
  - now rewrite app_nil_r.
Qed.

(** X13.  In the mapping [to_dict] returns, the keys of the response come
    first, in the response's order; and when the response holds none of
    [metadata], [system_prompt] and [user_prompt], the pairs asked for by
    the flags follow in exactly that order. *)
Theorem to_dict_key_order (self : CleanupPitch) (d : dict)
    (include_metadata include_system_prompt include_user_prompt : bool) :
  response self = JDict d ->
  exists d',
    to_dict self include_metadata include_system_prompt include_user_prompt
    = Ok (JDict d')
    /\ (exists added, dict_keys d' = dict_keys d ++ added)
    /\ (~ In KEY_METADATA (dict_keys d) ->
        ~ In KEY_SYSTEM_PROMPT (dict_keys d) ->
        ~ In KEY_USER_PROMPT (dict_keys d) ->
        d' = d
             ++ (if include_metadata
                 then [(KEY_METADATA, JDict (metadata self))] else [])
             ++ (if include_system_prompt
                 then [(KEY_SYSTEM_PROMPT, json_of_optstr (system_prompt self))]
                 else [])
             ++ (if include_user_prompt
                 then [(KEY_USER_PROMPT, JStr (user_prompt self))] else [])).
Proof.
  intros H. eexists. split; [apply (to_dict_flags_eq self d _ _ _ H)|].
  split.
  - do 3 apply dict_keys_set_if. exists []. now rewrite app_nil_r.
  - intros Hm Hs Hu.
    rewrite (dict_set_if_absent d include_metadata _ _ Hm).
    assert (Hs' : ~ In KEY_SYSTEM_PROMPT
                    (dict_keys
                       (d ++ (if include_metadata
                              then [(KEY_METADATA, JDict (metadata self))]
                              else [])))).
    { unfold dict_keys. rewrite map_app, in_app_iff.
      intros Hin. destruct Hin as [Hin|Hin]; [now apply Hs|].
      destruct include_metadata; [|exact Hin].
      destruct Hin as [Hin|[]]. discriminate Hin. }
    rewrite (dict_set_if_absent _ include_system_prompt _ _ Hs').
    rewrite dict_set_if_absent; [now rewrite <- !app_assoc|].
    unfold dict_keys. rewrite !map_app, !in_app_iff.
    intros Hin. destruct Hin as [[Hin|Hin]|Hin]; [now apply Hu| |].
    + destruct include_metadata; [|exact Hin].
      destruct Hin as [Hin|[]]. discriminate Hin.
    + destruct include_system_prompt; [|exact Hin].
      destruct Hin as [Hin|[]]. discriminate Hin.
Qed.

Lemma to_dict_key_order_witness :
  to_dict example_result true false true
  = Ok (JDict [(py "draft_markdown", JStr (py "# A" ++ [LF]));
               (py "final_markdown", JStr (py "# A" ++ [LF]));
               (KEY_METADATA, JDict (metadata example_result));
               (KEY_USER_PROMPT, JStr example_prompt)]).
Proof.
  destruct (to_dict_key_order example_result
              [(py "draft_markdown", JStr (py "# A" ++ [LF]));
               (py "final_markdown", JStr (py "# A" ++ [LF]))]
              true false true eq_refl)
    as (d' & Hd & _ & Horder).
  rewrite Hd, Horder; [reflexivity| | |];
    cbn [dict_keys map fst In]; intros [H|[H|[]]]; discriminate H.
Defined.

(** X14.  When the response is no mapping: a list is copied and returned
    as long as no flag is set, and the first key to be stored raises
    [TypeError]; any other value has no [copy] and raises
    [AttributeError], whatever the flags. *)
Theorem to_dict_not_a_mapping (self : CleanupPitch)
    (include_metadata include_system_prompt include_user_prompt : bool) :
  (forall d, response self <> JDict d) ->
  to_dict self include_metadata include_system_prompt include_user_prompt
  = match response self with
    | JList l =>
        if include_metadata || include_system_prompt || include_user_prompt
        then Raise TypeError
        else Ok (JList l)
    | _ => Raise AttributeError
    end.
Proof.
  intros H. unfold to_dict.
  destruct (response self) as [| | | | | |d];
    try (now destruct include_metadata, include_system_prompt,
           include_user_prompt).
  now destruct (H d).
Qed.

Lemma to_dict_not_a_mapping_witness :
  to_dict array_result false false false = Ok (JList [JInt 1])
  /\ to_dict array_result false false true = Raise TypeError.
Proof.
  split.
  - apply (to_dict_not_a_mapping array_result false false false).
    discriminate.
  - apply (to_dict_not_a_mapping array_result false false true).
    discriminate.
Defined.

(** ** [save_raw]: when it succeeds, what a failure leaves behind, what
    it writes *)

Lemma to_dict_all_flags_ok (self : CleanupPitch) (v : json) :
  to_dict self true true true = Ok v ->
  exists d d', response self = JDict d /\ v = JDict d'
               /\ dict_get KEY_USER_PROMPT d' = Some (JStr (user_prompt self)).
Proof.
  destruct (response self) as [| | | | | |d] eqn:E;
    try (unfold to_dict; rewrite E; discriminate).
  rewrite (to_dict_all_flags_eq self d E). intros H. injection H as <-.
  exists d. eexists. split; [reflexivity|]. split; [reflexivity|].
  apply dict_get_set_same.
Qed.

Section SaveRawOutcomes.

Variable float_repr : pystr -> pystr.



(** X17.  However it ends, [save_raw] writes no log record, calls no
    model client, reads no clock and touches no file but the one at
    [file_path]. *)
Theorem save_raw_touches_one_file (self : CleanupPitch) (file_path : pystr)
    (w : world) :
  let w' := snd (save_raw float_repr self file_path w) in
  w_events w' = w_events w
  /\ w_clock_reads w' = w_clock_reads w
  /\ (forall p, p <> file_path -> w_files w' p = w_files w p).
Proof.
  cbv zeta. unfold save_raw, bind, open_w, lift, write, set_file.
  destruct (w_openable w file_path); [|repeat split].
  destruct (to_dict self true true true) as [v|e];
    cbn [snd w_events w_clock_reads w_files];
    (split; [reflexivity|]; split; [reflexivity|]);
    intros p Hp; apply pystr_eqb_neq in Hp; now rewrite Hp.
Qed.

(** X18.  The text [save_raw] writes for a result begins with an opening
    brace, a line end, two spaces and the quote of the first key, and ends
    with a line end and the closing brace: the mapping is never written on
    one line. *)
Theorem save_raw_text_layout (self : CleanupPitch) (file_path : pystr)
    (w w' : world) :
  save_raw float_repr self file_path w = (Ok tt, w') ->
  exists body,
    read_text file_path w'
    = (Ok (ord "{" :: LF :: SPACE :: SPACE :: DQUOTE :: body
           ++ [LF; ord "}"]), w').
Proof.
  unfold save_raw, bind, open_w, lift, write, set_file.
  destruct (w_openable w file_path); [|discriminate].
  destruct (to_dict self true true true) as [v|e] eqn:Ed; [|discriminate].
  destruct (to_dict_all_flags_ok self v Ed) as (d & d' & _ & -> & Hu).
  intros H. injection H as <-.
  unfold read_text. cbn [w_files]. rewrite pystr_eqb_refl.
  destruct d' as [|[k x] d']; [discriminate Hu|].
  unfold json_dumps.
  change (encode float_repr 0 (JDict ((k, x) :: d')))
    with (ord "{" :: newline_indent 1
          ++ join (item_sep 0) (map (pair_text float_repr 0) ((k, x) :: d'))
          ++ newline_indent 0 ++ [ord "}"]).
  assert (Hjoin : exists tail,
             join (item_sep 0) (map (pair_text float_repr 0) ((k, x) :: d'))
             = DQUOTE :: tail).
  { cbn [map]. unfold pair_text at 1, encode_basestring_ascii.
    destruct (map (pair_text float_repr 0) d') as [|y others];
      cbn [join app]; eexists; reflexivity. }
  destruct Hjoin as [tail ->].
  exists tail. reflexivity.
Qed.

End SaveRawOutcomes.


Lemma save_raw_text_layout_witness :
  exists w' body,
    save_raw no_float_repr example_result example_path example_world
    = (Ok tt, w')
    /\ read_text example_path w'
       = (Ok (ord "{" :: LF :: SPACE :: SPACE :: DQUOTE :: body
              ++ [LF; ord "}"]), w').
Proof.
  eexists.
  assert (E : save_raw no_float_repr example_result example_path example_world
              = (Ok tt, snd (save_raw no_float_repr example_result
                               example_path example_world)))
    by (vm_compute; reflexivity).
  destruct (save_raw_text_layout no_float_repr example_result example_path
              example_world _ E) as [body Hbody].
  exists body. split; [exact E|exact Hbody].
Defined.

(** ** [save_raw]: the text is plain ASCII *)

Section SaveRawAscii.

Variable float_repr : pystr -> pystr.
Hypothesis float_repr_ascii : forall literal, is_ascii_text (float_repr literal).

Lemma encode_ascii_text (v : json) (level : nat) :
  is_ascii_text (encode float_repr level v).
Proof.
  revert level.
  induction v as [|b|n|f|s|l IH|d IH] using json_nested_ind; intros level.
  - repeat constructor.
  - destruct b; repeat constructor.
  - apply int_repr_ascii.
  - destruct f as [|[|]|literal]; try (repeat constructor).
    apply float_repr_ascii.
  - apply basestring_ascii.
  - destruct l as [|x l]; [repeat constructor|].
    change (encode float_repr level (JList (x :: l)))
      with (ord "[" :: newline_indent (S level)
            ++ join (item_sep level) (map (encode float_repr (S level)) (x :: l))
            ++ newline_indent level ++ [ord "]"]).
    constructor; [reflexivity|].
    repeat (apply Forall_app; split);
      try apply newline_indent_ascii; [|repeat constructor].
    apply join_ascii.
    + constructor; [reflexivity|apply newline_indent_ascii].
    + apply Forall_map. rewrite Forall_forall in IH |- *.
      intros y Hy. now apply IH.
  - destruct d as [|p d]; [repeat constructor|].
    change (encode float_repr level (JDict (p :: d)))
      with (ord "{" :: newline_indent (S level)
            ++ join (item_sep level) (map (pair_text float_repr level) (p :: d))
            ++ newline_indent level ++ [ord "}"]).
    constructor; [reflexivity|].
    repeat (apply Forall_app; split);
      try apply newline_indent_ascii; [|repeat constructor].
    apply join_ascii.
    + constructor; [reflexivity|apply newline_indent_ascii].
    + apply Forall_map. rewrite Forall_forall in IH |- *.
      intros [k y] Hy. unfold pair_text.
      repeat (apply Forall_app; split);
        [apply basestring_ascii|repeat constructor|].
      apply (IH (k, y) Hy).
Qed.

(** X19.  Whatever the strings of the result (accented letters, emoji,
    lone surrogates), the text [save_raw] writes holds ASCII characters
    only, so that it can be written in any encoding the file was opened
    with. *)
Theorem save_raw_writes_ascii (self : CleanupPitch) (file_path : pystr)
    (w w' : world) :
  save_raw float_repr self file_path w = (Ok tt, w') ->
  exists text,
    read_text file_path w' = (Ok text, w') /\ is_ascii_text text.
Proof.
  unfold save_raw, bind, open_w, lift, write, set_file.
  destruct (w_openable w file_path); [|discriminate].
  destruct (to_dict self true true true) as [v|e]; [|discriminate].
  intros H. injection H as <-.
  exists (json_dumps float_repr v). split.
  - unfold read_text. cbn [w_files]. now rewrite pystr_eqb_refl.
  - apply encode_ascii_text.
Qed.

End SaveRawAscii.

Lemma ascii_float_repr_ascii (literal : pystr) :
  is_ascii_text (ascii_float_repr literal).
Proof.
  unfold is_ascii_text, ascii_float_repr. apply Forall_forall.
  intros c Hc. apply filter_In in Hc as [_ Hc]. now apply N.ltb_lt.
Qed.

Lemma save_raw_writes_ascii_witness :
  exists w' text,
    save_raw ascii_float_repr accented_result example_path example_world
    = (Ok tt, w')
    /\ read_text example_path w' = (Ok text, w')
    /\ is_ascii_text text.
Proof.
  eexists.
  assert (E : save_raw ascii_float_repr accented_result example_path
                example_world
              = (Ok tt, snd (save_raw ascii_float_repr accented_result
                               example_path example_world)))
    by (vm_compute; reflexivity).
  destruct (save_raw_writes_ascii ascii_float_repr ascii_float_repr_ascii
              accented_result example_path example_world _ E)
    as (text & Hread & Hascii).
  exists text. split; [exact E|]. split; [exact Hread|exact Hascii].
Defined.

(** ** [execute], then [save_raw] *)

Section ExecuteThenSave.

Variable float_repr : pystr -> pystr.


End ExecuteThenSave.


(** ** [execute]: when it returns *)


(** ** [execute]: two invariants of what it returns *)

(** X22.  In the metadata of a returned result the client's own keys come
    first, in the client's order; and when the client's metadata holds none
    of [llm_classname], [duration] and [response_byte_count], these three
    follow in exactly that order. *)
Theorem execute_metadata_order (llm : LLM) (prompt : pystr) (w w' : world)
    (res : CleanupPitch) :
  execute (PyLLM llm) (PyValue (JStr prompt)) w = (Ok res, w') ->
  (exists added,
      dict_keys (metadata res) = dict_keys (llm_metadata llm) ++ added)
  /\ (~ In KEY_LLM_CLASSNAME (dict_keys (llm_metadata llm)) ->
      ~ In KEY_DURATION (dict_keys (llm_metadata llm)) ->
      ~ In KEY_RESPONSE_BYTE_COUNT (dict_keys (llm_metadata llm)) ->
      exists duration byte_count : Z,
        metadata res
        = llm_metadata llm
          ++ [ (KEY_LLM_CLASSNAME, JStr (llm_class_name llm));
               (KEY_DURATION, JInt duration);
               (KEY_RESPONSE_BYTE_COUNT, JInt byte_count) ]).
Proof.
  intros E.
  apply execute_ok_inv in E as (text & bytes & d & v & _ & _ & _ & _ & -> & _).
  cbn [metadata]. unfold augmented, dict_copy. split.
  - do 3 apply (dict_keys_set_if (llm_metadata llm) _ true).
    exists []. now rewrite app_nil_r.
  - intros Hc Hd Hb. exists d, (Z.of_nat (length bytes)).
    rewrite (dict_set_absent (llm_metadata llm) _ _ Hc).
    assert (Hd' : ~ In KEY_DURATION
                    (dict_keys
                       (llm_metadata llm
                        ++ [(KEY_LLM_CLASSNAME, JStr (llm_class_name llm))]))).
    { unfold dict_keys. rewrite map_app, in_app_iff.
      intros Hin. destruct Hin as [Hin|Hin]; [now apply Hd|].
      destruct Hin as [Hin|[]]. discriminate Hin. }
    rewrite (dict_set_absent _ _ _ Hd').
    rewrite dict_set_absent; [now rewrite <- !app_assoc|].
    unfold dict_keys. rewrite !map_app, !in_app_iff.
    intros Hin. destruct Hin as [[Hin|Hin]|Hin]; [now apply Hb| |];
      destruct Hin as [Hin|[]]; discriminate Hin.
Qed.

Lemma execute_metadata_order_witness :
  (exists w',
      execute (PyLLM example_llm) (PyValue (JStr example_prompt)) example_world
      = (Ok example_result, w')
      /\ dict_keys (metadata example_result)
         = [py "model_name"; KEY_DURATION; KEY_LLM_CLASSNAME;
            KEY_RESPONSE_BYTE_COUNT])
  /\ (exists res w',
         execute (PyLLM plain_llm) (PyValue (JStr example_prompt)) example_world
         = (Ok res, w')
         /\ metadata res
            = [ (py "model_name", JStr (py "plain-model"));
                (KEY_LLM_CLASSNAME, JStr (py "PlainLLM"));
                (KEY_DURATION, JInt 3);
                (KEY_RESPONSE_BYTE_COUNT, JInt 54) ]).
Proof.
  split.
  - destruct example_run as [w' E]. exists w'. split; [exact E|].
    destruct (execute_metadata_order example_llm example_prompt example_world
                w' example_result E) as [[added Hkeys] _].
    rewrite Hkeys. vm_compute in Hkeys.
    injection Hkeys as <-. reflexivity.
  - destruct (execute_ok_run plain_llm example_prompt example_world
                example_reply (map (fun c => mkbyte c) example_reply) 3%Z
                example_response)
      as [w' E]; try (vm_compute; reflexivity).
    eexists _, w'. split; [exact E|].
    destruct (execute_metadata_order plain_llm example_prompt example_world
                w' _ E) as [_ Horder].
    destruct Horder as (duration & byte_count & Hmeta);
      try (cbn [dict_keys map fst In llm_metadata plain_llm];
           intros [Habs|[]]; discriminate Habs).
    cbn [metadata] in Hmeta |- *. vm_compute. reflexivity.
Defined.

(** X23.  In the response of every returned result, each mapping has one
    pair per key and no string holds a high surrogate directly followed by
    a low surrogate: the reply went through the UTF-8 encoder and the JSON
    decoder, and neither lets such a value through. *)
Theorem execute_response_shapely (llm : LLM) (prompt : pystr) (w w' : world)
    (res : CleanupPitch) :
  execute (PyLLM llm) (PyValue (JStr prompt)) w = (Ok res, w') ->
  shapely (response res) = true.
Proof.
  intros E.
  apply execute_ok_inv in E
    as (text & bytes & d & v & _ & _ & Henc & Hloads & -> & _).
  cbn [response].
  apply (json_loads_shapely text); [|exact Hloads].
  now apply (encode_utf8_clean text bytes).
Qed.

Lemma execute_response_shapely_witness :
  exists res w',
    execute
      (PyLLM (stub_llm (ChatResponse (Some (json_text "{'a': 1, 'a': 2}")))))
      (PyValue (JStr example_prompt)) example_world
    = (Ok res, w')
    /\ response res = JDict [(py "a", JInt 2)]
    /\ shapely (response res) = true.
Proof.
  eexists. eexists.
  assert (E : execute
                (PyLLM (stub_llm (ChatResponse
                                    (Some (json_text "{'a': 1, 'a': 2}")))))
                (PyValue (JStr example_prompt)) example_world
              = (Ok {| system_prompt := Some (py_strip SYSTEM_PROMPT);
                       user_prompt := example_prompt;
                       response := JDict [(py "a", JInt 2)];
                       metadata := augmented
                                     (stub_llm (ChatResponse
                                        (Some (json_text "{'a': 1, 'a': 2}"))))
                                     3 16 |},
                 snd (execute
                        (PyLLM (stub_llm (ChatResponse
                                  (Some (json_text "{'a': 1, 'a': 2}")))))
                        (PyValue (JStr example_prompt)) example_world)))
    by (vm_compute; reflexivity).
  split; [exact E|]. split; [reflexivity|].
  exact (execute_response_shapely _ _ _ _ _ E).
Defined.
